(** * A shallow embedding of the TTL cache layer of package [database]

    The Go source keeps cached records in buckets of a Bolt store.  A
    cached record is the decimal expiry time (Unix seconds) as printed by
    [strconv.Itoa], the byte ['|'], and the payload.  This file models

    - the Go values the code manipulates (byte slices that may be [nil],
      strings, [error] values, run-time panics),
    - the two [strconv] functions the codec uses,
    - the contract of the Bolt engine the code relies on (buckets as
      finite maps, transactions, cursors in ascending key order),
    - the functions of the source, one definition per Go function,

    and then states and proves the properties of the cache layer. *)

From Stdlib Require Import ZArith Lia.
From Stdlib.Strings Require Import Byte String.
From stdpp Require Import gmap strings list fin_maps sorting.

Open Scope Z_scope.

(** ** Go values *)

#[global] Instance byte_eq_dec : EqDecision byte := Byte.byte_eq_dec.
#[global] Instance byte_countable : Countable byte :=
  inj_countable Byte.to_N Byte.of_N Byte.of_to_N.

(** The outcome of running Go code: it returns, or the goroutine panics
    (slice bounds out of range, nil pointer dereference). *)
Inductive outcome (A : Type) : Type :=
| Done (a : A)
| Panics.
Arguments Done {A} a.
Arguments Panics {A}.

(** A value of type [[]byte]: [None] is the nil slice, [Some l] a slice
    holding the bytes [l] (possibly none). *)
Definition slice : Type := option (list byte).

Definition data (s : slice) : list byte := default [] s.

(** [len(s)] *)
Definition len (s : slice) : Z := Z.of_nat (length (data s)).

(** [string(s)] and [[]byte(s)] *)
Definition string_of_slice (s : slice) : string := string_of_list_byte (data s).
Definition slice_of_string (s : string) : slice := Some (list_byte_of_string s).

(** [s[lo:hi]]; the bounds are checked against the length (the slices
    handled here are never re-sliced beyond it). *)
Definition slice_expr (s : slice) (lo hi : Z) : outcome slice :=
  if bool_decide (0 <= lo ∧ lo <= hi ∧ hi <= len s) then
    Done (match s with
          | None => None
          | Some l => Some (take (Z.to_nat (hi - lo)) (drop (Z.to_nat lo) l))
          end)
  else Panics.

(** [append(a, b...)] *)
Definition append (a b : slice) : slice :=
  match a, b with
  | None, None => None
  | _, _ => Some (data a ++ data b)
  end.

(** A value of type [error]: [None] is [nil], [Some msg] an error with
    text [msg]. *)
Definition error : Type := option string.

Module errors.
Definition New (msg : string) : error := Some msg.
End errors.

(** ** Package [strconv], base 10 and 64 bits *)

Module strconv.

Definition maxUint64 : Z := 2 ^ 64 - 1.

(** The digit table of [formatBits]. *)
Definition digits : list byte :=
  [x30; x31; x32; x33; x34; x35; x36; x37; x38; x39].

Definition digit (d : Z) : byte := nth (Z.to_nat d) digits x30.

(** [formatBits], base 10: the loop [for u >= 10 { ... u /= 10 }]
    writes the digits from the least significant one; a 64-bit value has
    at most 20 of them, which bounds the loop. *)
Fixpoint formatBits (fuel : nat) (u : Z) (a : list byte) : list byte :=
  match fuel with
  | O => a
  | S fuel' =>
      if u <? 10 then digit u :: a
      else formatBits fuel' (u / 10) (digit (u mod 10) :: a)
  end.

(** [FormatInt(i, 10)] *)
Definition FormatInt (i : Z) : string :=
  string_of_list_byte
    (if i <? 0 then x2d :: formatBits 20 (- i) [] else formatBits 20 i []).

(** [Itoa(i)] is [FormatInt(int64(i), 10)]. *)
Definition Itoa (i : Z) : string := FormatInt i.

Inductive NumError := ErrSyntax | ErrRange.

(** The value of one character in base 10, [None] for a character that
    [ParseUint] rejects. *)
Definition digitVal (c : byte) : option Z :=
  let n := Z.of_N (Byte.to_N c) in
  if bool_decide (48 <= n ∧ n <= 57) then Some (n - 48) else None.

(** The loop of [ParseUint(s, 10, 64)] over the characters of [s]. *)
Fixpoint parseDigits (s : list byte) (n : Z) : Z * option NumError :=
  match s with
  | [] => (n, None)
  | c :: s' =>
      match digitVal c with
      | None => (0, Some ErrSyntax)
      | Some d =>
          if maxUint64 / 10 + 1 <=? n then (maxUint64, Some ErrRange)
          else
            let n1 := n * 10 + d in
            if maxUint64 <? n1 then (maxUint64, Some ErrRange)
            else parseDigits s' n1
      end
  end.

Definition ParseUint (s : list byte) : Z * option NumError :=
  match s with
  | [] => (0, Some ErrSyntax)
  | _ => parseDigits s 0
  end.

(** [ParseInt(s, 10, 64)]: an optional sign, then [ParseUint]; a value
    out of range is clamped and reported with [ErrRange]. *)
Definition ParseInt (s : string) : Z * option NumError :=
  match list_byte_of_string s with
  | [] => (0, Some ErrSyntax)
  | c :: s' =>
      let neg := bool_decide (c = x2d) in
      let s1 := if bool_decide (c = x2b ∨ c = x2d) then s' else c :: s' in
      match ParseUint s1 with
      | (_, Some ErrSyntax) => (0, Some ErrSyntax)
      | (un, _) =>
          let cutoff := 2 ^ 63 in
          if negb neg && (cutoff <=? un) then (cutoff - 1, Some ErrRange)
          else if neg && (cutoff <? un) then (- cutoff, Some ErrRange)
          else (if neg then - un else un, None)
      end
  end.

(** [FormatBool(b)] *)
Definition FormatBool (b : bool) : string :=
  if b then "true"%string else "false"%string.

(** [ParseBool(str)]: the twelve spellings it accepts; anything else is a
    syntax error with the value [false]. *)
Definition ParseBool (str : string) : bool * option NumError :=
  if bool_decide (str ∈ ["1"; "t"; "T"; "TRUE"; "true"; "True"]%string)
  then (true, None)
  else if bool_decide (str ∈ ["0"; "f"; "F"; "FALSE"; "false"; "False"]%string)
       then (false, None)
       else (false, Some ErrSyntax).

End strconv.

(** ** Package [bytes] *)

Module bytes.

(** [HasPrefix(s, prefix)] *)
Fixpoint HasPrefix (s prefix : list byte) : bool :=
  match prefix, s with
  | [], _ => true
  | _ :: _, [] => false
  | p :: prefix', c :: s' => bool_decide (c = p) && HasPrefix s' prefix'
  end.

(** [Compare(a, b) < 0]: lexicographic order on the byte values. *)
Fixpoint Less (a b : list byte) : bool :=
  match a, b with
  | _, [] => false
  | [], _ :: _ => true
  | x :: a', y :: b' =>
      if bool_decide (x = y) then Less a' b'
      else (Byte.to_N x <? Byte.to_N y)%N
  end.

End bytes.

(** ** The TTL codec *)

(** [ParseCacheItem] (source lines 454-461). *)
Definition ParseCacheItem (item : slice) : outcome (Z * slice) :=
  if len item <? 11 then Done (0, None)
  else
    match slice_expr item 0 10 with
    | Panics => Panics
    | Done head =>
        let '(expire, _) := strconv.ParseInt (string_of_slice head) in
        match slice_expr item 11 (len item) with
        | Panics => Panics
        | Done rest => Done (expire, rest)
        end
    end.

(** ** Computations that thread a state and may panic *)

Definition Run (S A : Type) : Type := S → outcome (A * S).

Definition ret {S A} (a : A) : Run S A := λ s, Done (a, s).

Definition bind {S A B} (m : Run S A) (k : A → Run S B) : Run S B :=
  λ s, match m s with
       | Panics => Panics
       | Done (a, s') => k a s'
       end.

Notation "'let*' x ':=' m 'in' k" := (bind m (λ x, k))
  (at level 10, x pattern, m at level 100, k at level 200).

(** ** The Bolt engine, as far as the cache layer relies on it

    A store holds named buckets; a bucket maps keys to values.  All
    accesses run inside a transaction: a read-only one ([View]) or a
    writable one ([Update], [Batch]) whose changes are committed when the
    transaction function returns [nil] and discarded otherwise.  The
    handle is open, and one goroutine runs at a time, so that [Batch]
    behaves as [Update].  Each finished transaction is appended to a
    journal (ghost state) that records what it did, in order. *)

Module bolt.

Definition MaxKeySize : Z := 32768.
Definition MaxValueSize : Z := 2 ^ 31 - 2.

Definition ErrTxNotWritable : error := errors.New "tx not writable".
Definition ErrKeyRequired : error := errors.New "key required".
Definition ErrKeyTooLarge : error := errors.New "key too large".
Definition ErrValueTooLarge : error := errors.New "value too large".

Inductive Op : Type :=
| OpGet (bucket key : list byte)
| OpPut (bucket key value : list byte)
| OpDelete (bucket key : list byte)
| OpForEach (bucket : list byte)
| OpCursor (bucket : list byte).

Inductive TxKind : Type := ReadOnly | ReadWrite | Batched.

Record TxRecord : Type := mkTxRecord {
  kind : TxKind;
  ops : list Op;
  committed : bool
}.

(** A transaction in progress: its view of the buckets and the
    operations it has performed so far. *)
Record Tx : Type := mkTx {
  writable : bool;
  root : gmap (list byte) (gmap (list byte) (list byte));
  trace : list Op
}.

Record DB : Type := mkDB {
  buckets : gmap (list byte) (gmap (list byte) (list byte));
  journal : list TxRecord
}.

Definition record (o : Op) : Run Tx () :=
  λ tx, Done ((), mkTx (writable tx) (root tx) (trace tx ++ [o])).

(** [tx.Bucket(name)]: a [*Bucket], [nil] when there is no such bucket.
    The pointer is modelled by the name of the bucket. *)
Definition Tx_Bucket (name : list byte) : Run Tx (option (list byte)) :=
  λ tx, Done (match root tx !! name with
              | Some _ => Some name
              | None => None
              end, tx).

(** The contents of the bucket behind a [*Bucket]; using a nil pointer
    panics. *)
Definition contents (b : option (list byte))
  : Run Tx (list byte * gmap (list byte) (list byte)) :=
  λ tx, match b with
        | None => Panics
        | Some name =>
            match root tx !! name with
            | None => Panics
            | Some m => Done ((name, m), tx)
            end
        end.

(** [b.Get(key)]: [nil] when the key is absent. *)
Definition Bucket_Get (b : option (list byte)) (key : slice) : Run Tx slice :=
  let* (name, m) := contents b in
  let* _ := record (OpGet name (data key)) in
  ret (m !! data key).

Definition store (name : list byte) (m : gmap (list byte) (list byte))
  : Run Tx () :=
  λ tx, Done ((), mkTx (writable tx) (<[name := m]> (root tx)) (trace tx)).

Definition isWritable : Run Tx bool := λ tx, Done (writable tx, tx).

(** [b.Put(key, value)] *)
Definition Bucket_Put (b : option (list byte)) (key value : slice)
  : Run Tx error :=
  let* (name, m) := contents b in
  let* w := isWritable in
  if negb w then ret ErrTxNotWritable
  else if len key =? 0 then ret ErrKeyRequired
  else if MaxKeySize <? len key then ret ErrKeyTooLarge
  else if MaxValueSize <? len value then ret ErrValueTooLarge
  else
    let* _ := store name (<[data key := data value]> m) in
    let* _ := record (OpPut name (data key) (data value)) in
    ret None.

(** [b.Delete(key)]: deleting an absent key is not an error. *)
Definition Bucket_Delete (b : option (list byte)) (key : slice)
  : Run Tx error :=
  let* (name, m) := contents b in
  let* w := isWritable in
  if negb w then ret ErrTxNotWritable
  else
    let* _ := store name (delete (data key) m) in
    let* _ := record (OpDelete name (data key)) in
    ret None.

(** The order of keys in a bucket. *)
Definition key_le (x y : list byte * list byte) : Prop :=
  bytes.Less y.1 x.1 = false.

#[global] Instance key_le_dec x y : Decision (key_le x y).
Proof. unfold key_le. apply _. Defined.

(** The key-value pairs of a bucket in ascending key order, as a cursor
    or [ForEach] walks them. *)
Definition entries (m : gmap (list byte) (list byte))
  : list (list byte * list byte) :=
  merge_sort key_le (map_to_list m).

(** The loop of [b.ForEach(fn)]: it stops at the first error. *)
Fixpoint forEachLoop {A} (es : list (list byte * list byte))
    (fn : slice → slice → Run A error) : Run A error :=
  match es with
  | [] => ret None
  | (k, v) :: es' =>
      let* err := fn (Some k) (Some v) in
      match err with
      | Some _ => ret err
      | None => forEachLoop es' fn
      end
  end.

(** Runs a computation on the state [A] captured by a callback. *)
Definition inClosure {A B} (a : A) (m : Run A B) : Run Tx (B * A) :=
  λ tx, match m a with
        | Panics => Panics
        | Done r => Done (r, tx)
        end.

(** [b.ForEach(fn)] *)
Definition Bucket_ForEach {A} (b : option (list byte))
    (fn : slice → slice → Run A error) (a : A) : Run Tx (error * A) :=
  let* (name, m) := contents b in
  let* r := inClosure a (forEachLoop (entries m) fn) in
  let* _ := record (OpForEach name) in
  ret r.

(** A cursor over a bucket: all its entries in ascending key order,
    and those from the cursor's position to the end. *)
Record Cursor : Type := mkCursor {
  all : list (list byte * list byte);
  ahead : list (list byte * list byte)
}.

(** [b.Cursor()] *)
Definition Bucket_Cursor (b : option (list byte)) : Run Tx Cursor :=
  let* (name, m) := contents b in
  let* _ := record (OpCursor name) in
  ret (mkCursor (entries m) (entries m)).

(** The pair under the cursor; past the last entry the key is [nil]. *)
Definition current (c : Cursor) : option (list byte * list byte) :=
  head (ahead c).

(** The entries whose key is not below [seek]. *)
Fixpoint seekFrom (seek : list byte) (es : list (list byte * list byte))
  : list (list byte * list byte) :=
  match es with
  | [] => []
  | (k, v) :: es' =>
      if bytes.Less k seek then seekFrom seek es' else es
  end.

(** [c.Seek(seek)]: moves to the first key that is not below [seek]. *)
Definition Cursor_Seek (seek : slice) (c : Cursor) : Cursor :=
  mkCursor (all c) (seekFrom (data seek) (all c)).

(** [c.Next()] *)
Definition Cursor_Next (c : Cursor) : Cursor :=
  mkCursor (all c) (tail (ahead c)).

Definition begin (w : bool) (d : DB) : Tx := mkTx w (buckets d) [].

Definition finish (k : TxKind) (commit : bool) (tx : Tx) (d : DB) : DB :=
  mkDB (if commit then root tx else buckets d)
       (journal d ++ [mkTxRecord k (trace tx) commit]).

(** [db.View(fn)]: [fn] returns, next to its [error], the values
    it assigned to variables of the caller. *)
Definition View {A} (fn : Run Tx (A * error)) : Run DB (A * error) :=
  λ d, match fn (begin false d) with
       | Panics => Panics
       | Done (r, tx) => Done (r, finish ReadOnly false tx d)
       end.

Definition writeTx {A} (k : TxKind) (fn : Run Tx (A * error))
  : Run DB (A * error) :=
  λ d, match fn (begin true d) with
       | Panics => Panics
       | Done ((a, err), tx) =>
           Done ((a, err), finish k (bool_decide (err = None)) tx d)
       end.

(** [db.Update(fn)] *)
Definition Update {A} (fn : Run Tx (A * error)) : Run DB (A * error) :=
  writeTx ReadWrite fn.

(** [db.Batch(fn)] *)
Definition Batch {A} (fn : Run Tx (A * error)) : Run DB (A * error) :=
  writeTx Batched fn.

Definition ErrBucketNotFound : error := errors.New "bucket not found".
Definition ErrBucketNameRequired : error := errors.New "bucket name required".

(** [tx.CreateBucketIfNotExists(name)]: the bucket, created empty when
    there was none. *)
Definition Tx_CreateBucketIfNotExists (name : list byte)
  : Run Tx (option (list byte) * error) :=
  λ tx, if negb (writable tx) then Done ((None, ErrTxNotWritable), tx)
        else if (length name =? 0)%nat
             then Done ((None, ErrBucketNameRequired), tx)
             else match root tx !! name with
                  | Some _ => Done ((Some name, None), tx)
                  | None =>
                      Done ((Some name, None),
                            mkTx (writable tx) (<[name := ∅]> (root tx))
                              (trace tx))
                  end.

(** [tx.DeleteBucket(name)] *)
Definition Tx_DeleteBucket (name : list byte) : Run Tx error :=
  λ tx, if negb (writable tx) then Done (ErrTxNotWritable, tx)
        else match root tx !! name with
             | None => Done (ErrBucketNotFound, tx)
             | Some _ =>
                 Done (None,
                       mkTx (writable tx) (delete name (root tx)) (trace tx))
             end.

End bolt.

(** ** Package [util] *)

Module util.

(** Modelled from the spec: the body of [util.NowPlusSecondsInt] is not
    among the sources; the spec gives the expiry written by the encoder
    as [now()+ttlSeconds].  [now] is the reading of the clock,
    [util.NowInt64()], in Unix seconds; the functions below that read
    the clock take it as their first argument. *)
Definition NowPlusSecondsInt (now seconds : Z) : Z := now + seconds.

End util.

(** ** Package [database]: the methods of [BoltDatabase] *)

Definition lift {S A} (o : outcome A) : Run S A :=
  λ s, match o with
       | Panics => Panics
       | Done a => Done (a, s)
       end.

(** [BucketExists] (lines 280-287) *)
Definition BucketExists (bucket : list byte) : Run bolt.DB bool :=
  let* (res, _) :=
    bolt.View (let* b := bolt.Tx_Bucket bucket in
               ret (bool_decide (b ≠ None), (None : error))) in
  ret res.

(** [ForEach] (lines 442-447); [a] is the state the callback closes
    over, returned as the callback left it. *)
Definition ForEach {A} (bucket : list byte)
    (callback : slice → slice → Run A error) (a : A)
  : Run bolt.DB (A * error) :=
  bolt.View (let* b := bolt.Tx_Bucket bucket in
             let* (_, a') := bolt.Bucket_ForEach b callback a in
             ret (a', (None : error))).

(** The [for] loop of [Seek]: [c] is the cursor after [c.Seek] or
    [c.Next()], and the loop ends when its key is [nil] or lacks the
    prefix.  [steps] bounds the number of iterations; a cursor makes at
    most one per entry of its bucket. *)
Fixpoint seekLoop {A} (steps : nat) (c : bolt.Cursor) (bytePrefix : slice)
    (callback : slice → slice → Run A ()) : Run A () :=
  match steps, bolt.current c with
  | S steps', Some (k, v) =>
      if bytes.HasPrefix k (data bytePrefix) then
        let* _ := callback (Some k) (Some v) in
        seekLoop steps' (bolt.Cursor_Next c) bytePrefix callback
      else ret ()
  | _, _ => ret ()
  end.

(** [Seek] (lines 430-439) *)
Definition Seek {A} (bucket : list byte) (prefix : string)
    (callback : slice → slice → Run A ()) (a : A)
  : Run bolt.DB (A * error) :=
  bolt.View (let* b := bolt.Tx_Bucket bucket in
             let* c := bolt.Bucket_Cursor b in
             let bytePrefix := slice_of_string prefix in
             let* (_, a') :=
               bolt.inClosure a
                 (seekLoop (S (length (bolt.all c)))
                    (bolt.Cursor_Seek bytePrefix c) bytePrefix callback) in
             ret (a', (None : error))).

(** [Delete] (lines 662-666) *)
Definition Delete (bucket : list byte) (key : string) : Run bolt.DB error :=
  let* (_, err) :=
    bolt.Update (let* b := bolt.Tx_Bucket bucket in
                 let* err := bolt.Bucket_Delete b (slice_of_string key) in
                 ret ((), err)) in
  ret err.

(** The [for] loop of [BatchDelete]; the result of [b.Delete] is dropped. *)
Fixpoint batchDeleteLoop (b : option (list byte)) (keys : list string)
  : Run bolt.Tx () :=
  match keys with
  | [] => ret ()
  | key :: keys' =>
      let* _ := bolt.Bucket_Delete b (slice_of_string key) in
      batchDeleteLoop b keys'
  end.

(** [BatchDelete] (lines 669-677) *)
Definition BatchDelete (bucket : list byte) (keys : list string)
  : Run bolt.DB error :=
  let* (_, err) :=
    bolt.Batch (let* b := bolt.Tx_Bucket bucket in
                let* _ := batchDeleteLoop b keys in
                ret ((), (None : error))) in
  ret err.

(** [GetCachedBytes] (lines 464-485) *)
Definition GetCachedBytes (now : Z) (bucket : list byte) (key : string)
  : Run bolt.DB (slice * error) :=
  let* (value, err) :=
    bolt.View (let* b := bolt.Tx_Bucket bucket in
               let* value := bolt.Bucket_Get b (slice_of_string key) in
               ret (value, (None : error))) in
  if bool_decide (err ≠ None) || (len value =? 0) then ret (None, err)
  else
    let* (expire, v) := lift (ParseCacheItem value) in
    if (0 <? expire) && (expire <? now) then
      let* _ := Delete bucket key in
      ret (None, errors.New "Key Expired")
    else if expire =? 0 then
      let* _ := Delete bucket key in
      ret (None, errors.New "Invalid Key")
    else ret (v, None).

(** [GetCached] (lines 488-491) *)
Definition GetCached (now : Z) (bucket : list byte) (key : string)
  : Run bolt.DB (string * error) :=
  let* (value, err) := GetCachedBytes now bucket key in
  ret (string_of_slice value, err).

(** [Has] (lines 523-531) *)
Definition Has (bucket : list byte) (key : string) : Run bolt.DB bool :=
  let* (res, _) :=
    bolt.View (let* b := bolt.Tx_Bucket bucket in
               let* value := bolt.Bucket_Get b (slice_of_string key) in
               ret (0 <? len value, (None : error))) in
  ret res.

(** [GetBytes] (lines 534-542) *)
Definition GetBytes (bucket : list byte) (key : string)
  : Run bolt.DB (slice * error) :=
  bolt.View (let* b := bolt.Tx_Bucket bucket in
             let* value := bolt.Bucket_Get b (slice_of_string key) in
             ret (value, (None : error))).

(** [Get] (lines 545-548) *)
Definition Get (bucket : list byte) (key : string)
  : Run bolt.DB (string * error) :=
  let* (value, err) := GetBytes bucket key in
  ret (string_of_slice value, err).

(** The value [SetCachedBytes] stores (line 572):
    [append([]byte(strconv.Itoa(util.NowPlusSecondsInt(seconds))+"|"), value...)]. *)
Definition cacheItem (now seconds : Z) (value : slice) : slice :=
  append
    (slice_of_string
       (strconv.Itoa (util.NowPlusSecondsInt now seconds) +:+ "|"))
    value.

(** [SetCachedBytes] (lines 570-575) *)
Definition SetCachedBytes (now : Z) (bucket : list byte) (seconds : Z)
    (key : string) (value : slice) : Run bolt.DB error :=
  let* (_, err) :=
    bolt.Update (let value' := cacheItem now seconds value in
                 let* b := bolt.Tx_Bucket bucket in
                 let* err := bolt.Bucket_Put b (slice_of_string key) value' in
                 ret ((), err)) in
  ret err.

(** [SetCached] (lines 578-580) *)
Definition SetCached (now : Z) (bucket : list byte) (seconds : Z)
    (key value : string) : Run bolt.DB error :=
  SetCachedBytes now bucket seconds key (slice_of_string value).

(** [SetBytes] (lines 599-603) *)
Definition SetBytes (bucket : list byte) (key : string) (value : slice)
  : Run bolt.DB error :=
  let* (_, err) :=
    bolt.Update (let* b := bolt.Tx_Bucket bucket in
                 let* err := bolt.Bucket_Put b (slice_of_string key) value in
                 ret ((), err)) in
  ret err.

(** The test of the sweep (line 394). *)
Definition stale (now expire : Z) : bool :=
  (0 <? expire) && (expire <? now) || (expire =? 0).

(** The callback [CacheCleanup] passes to [ForEach] (lines 392-399); the
    state it closes over is [toRemove]. *)
Definition cleanupCallback (now : Z) (key value : slice)
  : Run (list string) error :=
  λ toRemove,
    match ParseCacheItem value with
    | Panics => Panics
    | Done (expire, _) =>
        if stale now expire
        then Done (None, toRemove ++ [string_of_slice key])
        else Done (None, toRemove)
    end.

(** The body of the loop of [CacheCleanup] (lines 387-404), for one
    bucket. *)
Definition cleanupBucket (now : Z) (bucket : list byte) : Run bolt.DB () :=
  let* found := BucketExists bucket in
  if negb found then ret ()
  else
    let* (toRemove, _) := ForEach bucket (cleanupCallback now) [] in
    if (0 <? length toRemove)%nat then
      let* _ := BatchDelete bucket toRemove in
      ret ()
    else ret ().

(** [CacheCleanup] (lines 382-406).  [CacheBuckets], a package variable
    declared outside the sources at hand, is a parameter; [now] is read
    once, before the loop. *)
Fixpoint CacheCleanup (now : Z) (CacheBuckets : list (list byte))
  : Run bolt.DB () :=
  match CacheBuckets with
  | [] => ret ()
  | bucket :: rest =>
      let* _ := cleanupBucket now bucket in
      CacheCleanup now rest
  end.

(** [CheckBucket] (lines 272-277) *)
Definition CheckBucket (bucket : list byte) : Run bolt.DB error :=
  let* (_, err) :=
    bolt.Update (let* (_, err) := bolt.Tx_CreateBucketIfNotExists bucket in
                 ret ((), err)) in
  ret err.

(** [RecreateBucket] (lines 290-300) *)
Definition RecreateBucket (bucket : list byte) : Run bolt.DB error :=
  let* (_, err) :=
    bolt.Update (let* errDrop := bolt.Tx_DeleteBucket bucket in
                 match errDrop with
                 | Some _ => ret ((), errDrop)
                 | None =>
                     let* (_, errCreate) :=
                       bolt.Tx_CreateBucketIfNotExists bucket in
                     ret ((), errCreate)
                 end) in
  ret err.

(** The callback [DeleteWithPrefix] passes to [ForEach] (lines 411-417);
    the state it closes over is [toRemove]. *)
Definition prefixCallback (prefix : slice) (key v : slice)
  : Run (list string) error :=
  λ toRemove,
    if bytes.HasPrefix (data key) (data prefix)
    then Done (None, toRemove ++ [string_of_slice key])
    else Done (None, toRemove).

(** [DeleteWithPrefix] (lines 409-423) *)
Definition DeleteWithPrefix (bucket : list byte) (prefix : slice)
  : Run bolt.DB () :=
  let* (toRemove, _) := ForEach bucket (prefixCallback prefix) [] in
  if (0 <? length toRemove)%nat then
    let* _ := BatchDelete bucket toRemove in
    ret ()
  else ret ().

(** The dynamic type of the error [GetCachedBool] returns: one made by
    [errors.New], or a [*strconv.NumError]. *)
Definition boolError : Type := option (string + strconv.NumError).

(** [GetCachedBool] (lines 494-501) *)
Definition GetCachedBool (now : Z) (bucket : list byte) (key : string)
  : Run bolt.DB (bool * boolError) :=
  let* (value, err) := GetCachedBytes now bucket key in
  match err with
  | Some msg => ret (false, Some (inl msg))
  | None =>
      let '(b, e) := strconv.ParseBool (string_of_slice value) in
      ret (b, inr <$> e)
  end.

(** [GetCachedObject] (lines 504-516).  [Unmarshal] stands for
    [json.Unmarshal(v, &item)]: from the bytes and the item passed in it
    gives the item as decoding left it, and the error. *)
Definition GetCachedObject {Item : Type}
    (Unmarshal : list byte → Item → Item * error)
    (now : Z) (bucket : list byte) (key : string) (item : Item)
  : Run bolt.DB (Item * error) :=
  let* (v, err) := GetCachedBytes now bucket key in
  if bool_decide (err ≠ None) || (len v =? 0) then ret (item, err)
  else
    let '(item', err) := Unmarshal (data v) item in
    ret (item', err).

(** [GetObject] (lines 551-567) *)
Definition GetObject {Item : Type}
    (Unmarshal : list byte → Item → Item * error)
    (bucket : list byte) (key : string) (item : Item)
  : Run bolt.DB (Item * error) :=
  let* (v, err) := GetBytes bucket key in
  if bool_decide (err ≠ None) then ret (item, err)
  else if len v =? 0 then ret (item, errors.New "Bytes empty")
  else
    let '(item', err) := Unmarshal (data v) item in
    ret (item', err).

(** [SetCachedBool] (lines 583-585) *)
Definition SetCachedBool (now : Z) (bucket : list byte) (seconds : Z)
    (key : string) (value : bool) : Run bolt.DB error :=
  SetCachedBytes now bucket seconds key
    (slice_of_string (strconv.FormatBool value)).

(** [Set] (lines 606-608); [Set] is a reserved word here, hence the
    underscore. *)
Definition Set_ (bucket : list byte) (key value : string) : Run bolt.DB error :=
  SetBytes bucket key (slice_of_string value).

(** [SetObject] (lines 611-619).  [Marshal] stands for [json.Marshal]. *)
Definition SetObject {Item : Type} (Marshal : Item → slice * error)
    (bucket : list byte) (key : string) (item : Item) : Run bolt.DB error :=
  let '(buf, err) := Marshal item in
  match err with
  | Some _ => ret err
  | None =>
      let* err := SetBytes bucket key buf in
      match err with
      | Some _ => ret err
      | None => ret None
      end
  end.

(** The loop of [BatchSetBytes] over the pairs of the map [objects], in
    the order [range] visits them; it stops at the first failing [Put]. *)
Fixpoint batchSetLoop (b : option (list byte)) (objects : list (string * slice))
  : Run bolt.Tx error :=
  match objects with
  | [] => ret None
  | (key, value) :: rest =>
      let* err := bolt.Bucket_Put b (slice_of_string key) value in
      match err with
      | Some _ => ret err
      | None => batchSetLoop b rest
      end
  end.

(** [BatchSetBytes] (lines 635-645).  The Go map [objects] is given by
    its pairs in the order the [range] loop visits them. *)
Definition BatchSetBytes (bucket : list byte) (objects : list (string * slice))
  : Run bolt.DB error :=
  let* (_, err) :=
    bolt.Batch (let* b := bolt.Tx_Bucket bucket in
                let* err := batchSetLoop b objects in
                ret ((), err)) in
  ret err.

(** [BatchSet] (lines 622-632): as [BatchSetBytes], each value converted
    by [[]byte(value)]. *)
Definition BatchSet (bucket : list byte) (objects : list (string * string))
  : Run bolt.DB error :=
  let* (_, err) :=
    bolt.Batch (let* b := bolt.Tx_Bucket bucket in
                let* err :=
                  batchSetLoop b
                    ((λ kv, (kv.1, slice_of_string kv.2)) <$> objects) in
                ret ((), err)) in
  ret err.

(** [DBWriter]: the database is the state the methods run on. *)
Record DBWriter : Type := mkDBWriter {
  writerBucket : list byte;
  writerKey : slice
}.

(** [AsWriter] (lines 680-686) *)
Definition AsWriter (bucket : list byte) (key : string) : DBWriter :=
  mkDBWriter bucket (slice_of_string key).

(** [Write] (lines 689-693) *)
Definition Write (w : DBWriter) (b : slice) : Run bolt.DB (Z * error) :=
  let* (_, err) :=
    bolt.Update (let* bk := bolt.Tx_Bucket (writerBucket w) in
                 let* err := bolt.Bucket_Put bk (writerKey w) b in
                 ret ((), err)) in
  ret (len b, err).

(** ** Vocabulary of the statements *)

(** A decimal digit, and the number a sequence of digits denotes. *)
Definition isDigit (c : byte) : Prop :=
  48 <= Z.of_N (Byte.to_N c) ∧ Z.of_N (Byte.to_N c) <= 57.

Definition decimalFrom (n : Z) (l : list byte) : Z :=
  fold_left (λ n c, n * 10 + (Z.of_N (Byte.to_N c) - 48)) l n.

Definition decimal (l : list byte) : Z := decimalFrom 0 l.

(** The separator byte ['|']. *)
Definition separator : byte := x7c.

(** A bucket after the keys [keys] have been deleted one after the
    other. *)
Definition deleteAll (keys : list (list byte))
    (m : gmap (list byte) (list byte)) : gmap (list byte) (list byte) :=
  foldl (λ m k, delete k m) m keys.

(** The callback invoked on each pair of [hits], in order. *)
Fixpoint calls {A} (callback : slice → slice → Run A ())
    (hits : list (list byte * list byte)) : Run A () :=
  match hits with
  | [] => ret ()
  | (k, v) :: hits' =>
      let* _ := callback (Some k) (Some v) in
      calls callback hits'
  end.

(** Whether a key carries the prefix. *)
Definition hasPrefix (prefix : list byte) (kv : list byte * list byte) : Prop :=
  bytes.HasPrefix kv.1 prefix = true.

#[global] Instance hasPrefix_dec prefix kv : Decision (hasPrefix prefix kv).
Proof. unfold hasPrefix. apply _. Defined.

(** Ascending order of the keys of a list of pairs. *)
Definition key_lt (x y : list byte * list byte) : Prop :=
  bytes.Less x.1 y.1 = true.

(** The expiry the decoder reads from a stored value. *)
Definition expiryOf (v : list byte) : Z :=
  match ParseCacheItem (Some v) with
  | Done (expire, _) => expire
  | Panics => 0
  end.

(** An entry that the sweep removes. *)
Definition staleEntry (now : Z) (kv : list byte * list byte) : Prop :=
  stale now (expiryOf kv.2) = true.

#[global] Instance staleEntry_dec now kv : Decision (staleEntry now kv).
Proof. unfold staleEntry. apply _. Defined.

(** The keys of the stale entries of a bucket, in ascending order. *)
Definition staleKeys (now : Z) (m : gmap (list byte) (list byte))
  : list (list byte) :=
  (filter (staleEntry now) (bolt.entries m)).*1.

(** A bucket without its stale entries. *)
Definition sweep (now : Z) (m : gmap (list byte) (list byte))
  : gmap (list byte) (list byte) :=
  filter (λ kv, ¬ staleEntry now kv) m.

(** The three kinds of records of a swept bucket: expired, zero-expiry,
    not yet expired. *)
Definition threeKinds (now expire : Z) : Prop :=
  (0 < expire ∧ expire < now) ∨ expire = 0 ∨ now <= expire.

(** The transactions of a sweep, as they appear in the journal: the one
    of [BucketExists], the full scan of a bucket by [ForEach], and the
    batch that deletes the keys [keys] of a bucket. *)
Definition existsTx : bolt.TxRecord := bolt.mkTxRecord bolt.ReadOnly [] false.

Definition scanTx (bucket : list byte) : bolt.TxRecord :=
  bolt.mkTxRecord bolt.ReadOnly [bolt.OpForEach bucket] false.

Definition batchTx (bucket : list byte) (keys : list (list byte))
  : bolt.TxRecord :=
  bolt.mkTxRecord bolt.Batched (bolt.OpDelete bucket <$> keys) true.

(** A transaction that deletes a key of the bucket. *)
Definition deletesFrom (bucket : list byte) (t : bolt.TxRecord) : Prop :=
  ∃ k, bolt.OpDelete bucket k ∈ bolt.ops t.

(** The effect of the body of the sweep's loop on the buckets, and what
    it appends to the journal. *)
Definition sweepBucket (now : Z) (bucket : list byte)
    (bs : gmap (list byte) (gmap (list byte) (list byte)))
  : gmap (list byte) (gmap (list byte) (list byte)) :=
  match bs !! bucket with
  | None => bs
  | Some m => <[bucket := sweep now m]> bs
  end.

Definition cleanupJournal (now : Z) (bucket : list byte)
    (bs : gmap (list byte) (gmap (list byte) (list byte)))
  : list bolt.TxRecord :=
  match bs !! bucket with
  | None => [existsTx]
  | Some m =>
      [existsTx; scanTx bucket]
      ++ match staleKeys now m with
         | [] => []
         | keys => [batchTx bucket keys]
         end
  end.

Fixpoint sweepJournal (now : Z) (CacheBuckets : list (list byte))
    (bs : gmap (list byte) (gmap (list byte) (list byte)))
  : list bolt.TxRecord :=
  match CacheBuckets with
  | [] => []
  | bucket :: rest =>
      cleanupJournal now bucket bs
      ++ sweepJournal now rest (sweepBucket now bucket bs)
  end.

Definition sweepAll (now : Z) (CacheBuckets : list (list byte))
    (bs : gmap (list byte) (gmap (list byte) (list byte)))
  : gmap (list byte) (gmap (list byte) (list byte)) :=
  foldl (λ s bucket, sweepBucket now bucket s) bs CacheBuckets.

(** A pair the engine's [Put] accepts. *)
Definition acceptable (kv : string * slice) : Prop :=
  0 < len (slice_of_string kv.1)
  ∧ len (slice_of_string kv.1) <= bolt.MaxKeySize
  ∧ len kv.2 <= bolt.MaxValueSize.

(** A bucket after the pairs have been put one after the other. *)
Definition insertAll (objects : list (string * slice))
    (m : gmap (list byte) (list byte)) : gmap (list byte) (list byte) :=
  foldl (λ m kv, <[list_byte_of_string kv.1 := data kv.2]> m) m objects.

(** A callback for [ForEach] that records the pairs it is invoked on and
    never fails. *)
Definition recordAll (k v : slice) : Run (list (slice * slice)) error :=
  λ log, Done (None, log ++ [(k, v)]).

(** The arguments a callback receives for a list of entries. *)
Definition asArgs (es : list (list byte * list byte)) : list (slice * slice) :=
  (λ kv, (Some kv.1, Some kv.2)) <$> es.

(** A callback that records the pairs it is invoked on. *)
Definition recorder (k v : slice) : Run (list (slice * slice)) () :=
  λ log, Done ((), log ++ [(k, v)]).

(** ** Concrete stores for the examples *)

Definition exBucket : list byte := list_byte_of_string "cache".

(** A store with the one bucket ["cache"] holding [m], and an empty
    journal. *)
Definition exStore (m : gmap (list byte) (list byte)) : bolt.DB :=
  bolt.mkDB {[ exBucket := m ]} [].

(** A bucket with the record ["1700000000|v"] under the key ["k"]. *)
Definition exRecord : gmap (list byte) (list byte) :=
  {[ list_byte_of_string "k" := list_byte_of_string "1700000000|v" ]}.

(** The bucket of the scan scenario. *)
Definition exUsers : gmap (list byte) (list byte) :=
  <[list_byte_of_string "user.1" := list_byte_of_string "a"]>
    (<[list_byte_of_string "user.2" := list_byte_of_string "b"]>
       {[ list_byte_of_string "admin.1" := list_byte_of_string "c" ]}).

(** A cache bucket with an expired record, a zero-expiry record and a
    record that has not expired at time 1650000000. *)
Definition exMixed : gmap (list byte) (list byte) :=
  <[list_byte_of_string "old" := list_byte_of_string "1600000000|x"]>
    (<[list_byte_of_string "zero" := list_byte_of_string "0000000000|y"]>
       {[ list_byte_of_string "new" := list_byte_of_string "1700000000|z" ]}).

(** * Properties *)

(** ** Strings and byte slices *)

Lemma list_byte_of_string_app (s t : string) :
  list_byte_of_string (s +:+ t) = list_byte_of_string s ++ list_byte_of_string t.
Proof.
  induction s as [|c s IH]; [reflexivity|].
  change (list_byte_of_string (String c (s +:+ t))
          = list_byte_of_string (String c s) ++ list_byte_of_string t).
  unfold list_byte_of_string in *. simpl. by rewrite IH.
Qed.

Lemma slice_string_roundtrip (s : string) :
  string_of_slice (slice_of_string s) = s.
Proof. apply string_of_list_byte_of_string. Qed.

Lemma slice_expr_ok (l : list byte) (lo hi : Z) :
  0 <= lo → lo <= hi → hi <= Z.of_nat (length l) →
  slice_expr (Some l) lo hi
  = Done (Some (take (Z.to_nat (hi - lo)) (drop (Z.to_nat lo) l))).
Proof.
  intros. unfold slice_expr, len. simpl.
  rewrite bool_decide_eq_true_2; [done | lia].
Qed.

(** ** [strconv]: printing and parsing agree *)

Lemma decimalFrom_app n l1 l2 :
  decimalFrom n (l1 ++ l2) = decimalFrom (decimalFrom n l1) l2.
Proof. apply fold_left_app. Qed.

Lemma decimalFrom_mono n l :
  0 <= n → Forall isDigit l → n <= decimalFrom n l.
Proof.
  intros Hn Hl. revert n Hn.
  induction Hl as [|c l [Hc1 Hc2] _ IH]; intros n Hn; simpl; [lia|].
  etrans; [| apply IH]; lia.
Qed.

Lemma decimalFrom_bound n l :
  0 <= n → Forall isDigit l →
  decimalFrom n l < (n + 1) * 10 ^ Z.of_nat (length l).
Proof.
  intros Hn Hl. revert n Hn.
  induction Hl as [|c l [Hc1 Hc2] _ IH]; intros n Hn.
  { change (10 ^ Z.of_nat (length (@nil byte))) with 1. simpl. lia. }
  cbn [decimalFrom fold_left length].
  rewrite Nat2Z.inj_succ, Z.pow_succ_r by lia.
  eapply Z.lt_le_trans; [apply IH; lia|].
  assert (0 < 10 ^ Z.of_nat (length l)) by (apply Z.pow_pos_nonneg; lia).
  replace ((n + 1) * (10 * 10 ^ Z.of_nat (length l)))
    with (((n + 1) * 10) * 10 ^ Z.of_nat (length l)) by lia.
  apply Z.mul_le_mono_nonneg_r; lia.
Qed.

Lemma digitVal_isDigit c : isDigit c → strconv.digitVal c = Some (Z.of_N (Byte.to_N c) - 48).
Proof.
  intros H. unfold strconv.digitVal.
  by rewrite bool_decide_eq_true_2.
Qed.

Lemma digitVal_Some c d : strconv.digitVal c = Some d → 0 <= d ∧ d <= 9.
Proof.
  unfold strconv.digitVal. case_bool_decide; [|done].
  intros [= <-]. lia.
Qed.

#[local] Arguments strconv.digit : simpl never.

Lemma digit_spec d :
  0 <= d → d < 10 →
  isDigit (strconv.digit d) ∧ Z.of_N (Byte.to_N (strconv.digit d)) - 48 = d.
Proof.
  intros H0 H10.
  assert (d = 0 ∨ d = 1 ∨ d = 2 ∨ d = 3 ∨ d = 4 ∨ d = 5 ∨ d = 6 ∨ d = 7
          ∨ d = 8 ∨ d = 9) as Hd by lia.
  unfold isDigit.
  repeat (destruct Hd as [-> | Hd]; [vm_compute; intuition congruence|]).
  subst d. vm_compute. intuition congruence.
Qed.

(** What [formatBits] writes in front of [a]: the digits of [u], most
    significant first, without leading zeros. *)
Lemma formatBits_spec (fuel : nat) (u : Z) (a : list byte) :
  (0 < fuel)%nat → 0 <= u → u < 10 ^ Z.of_nat fuel →
  ∃ ds, strconv.formatBits fuel u a = ds ++ a
        ∧ Forall isDigit ds
        ∧ decimal ds = u
        ∧ u < 10 ^ Z.of_nat (length ds)
        ∧ (length ds = 1%nat ∨ 10 ^ (Z.of_nat (length ds) - 1) <= u).
Proof.
  revert u a. induction fuel as [|fuel IH]; intros u a Hfuel Hu Hlt; [lia|].
  simpl. destruct (Z.ltb_spec u 10) as [Hsmall|Hbig].
  - destruct (digit_spec u) as [Hd Hv]; [lia..|].
    exists [strconv.digit u]. cbn. repeat split; auto; try lia.
  - rewrite Nat2Z.inj_succ, Z.pow_succ_r in Hlt by lia.
    destruct (IH (u / 10) (strconv.digit (u mod 10) :: a)) as
      (ds & Heq & Hds & Hval & Hup & Hlow).
    { destruct fuel; [simpl in Hlt|]; lia. }
    { apply Z.div_pos; lia. }
    { apply Z.div_lt_upper_bound; lia. }
    pose proof (Z.div_mod u 10 ltac:(lia)) as Hdm.
    pose proof (Z.mod_pos_bound u 10 ltac:(lia)) as Hmb.
    destruct (digit_spec (u mod 10)) as [Hd Hv]; [lia..|].
    exists (ds ++ [strconv.digit (u mod 10)]).
    rewrite Heq, <- app_assoc. split; [done|].
    split; [apply Forall_app; auto|].
    unfold decimal in *. rewrite decimalFrom_app, Hval. cbn. rewrite Hv.
    rewrite length_app. cbn [length].
    replace (Z.of_nat (length ds + 1)) with (Z.succ (Z.of_nat (length ds))) by lia.
    rewrite Z.pow_succ_r by lia.
    split; [lia|]. split; [lia|]. right.
    replace (Z.succ (Z.of_nat (length ds)) - 1) with (Z.of_nat (length ds)) by lia.
    destruct Hlow as [-> | Hlow]; [cbn; lia|].
    replace (Z.of_nat (length ds)) with (Z.succ (Z.of_nat (length ds) - 1)).
    + rewrite Z.pow_succ_r; [lia|].
      destruct ds; cbn [length] in *; [cbn in Hup|]; lia.
    + lia.
Qed.

Lemma parseDigits_digits (s : list byte) (n : Z) :
  Forall isDigit s → 0 <= n → decimalFrom n s <= strconv.maxUint64 →
  strconv.parseDigits s n = (decimalFrom n s, None).
Proof.
  intros Hs. revert n.
  induction Hs as [|c s Hc Hs IH]; intros n Hn Hmax; [reflexivity|].
  cbn [strconv.parseDigits]. rewrite digitVal_isDigit by done.
  cbn in Hmax.
  assert (n * 10 + (Z.of_N (Byte.to_N c) - 48) <= strconv.maxUint64) as Hstep.
  { etrans; [|exact Hmax]. apply decimalFrom_mono; [|done].
    destruct Hc. lia. }
  destruct Hc as [Hc1 Hc2].
  assert (strconv.maxUint64 / 10 + 1 = 1844674407370955162) as Hcut by reflexivity.
  assert (strconv.maxUint64 = 18446744073709551615) as Hm by reflexivity.
  destruct (Z.leb_spec (strconv.maxUint64 / 10 + 1) n); [lia|].
  destruct (Z.ltb_spec strconv.maxUint64 (n * 10 + (Z.of_N (Byte.to_N c) - 48))); [lia|].
  apply IH; [lia|done].
Qed.

(** Below the 64-bit range the parser fails only on a character that is
    not a digit. *)
Lemma parseDigits_cases (s : list byte) (n : Z) :
  0 <= n → (n + 1) * 10 ^ Z.of_nat (length s) <= 2 ^ 63 →
  strconv.parseDigits s n = (0, Some strconv.ErrSyntax)
  ∨ ∃ v, strconv.parseDigits s n = (v, None)
         ∧ 0 <= v ∧ v < (n + 1) * 10 ^ Z.of_nat (length s).
Proof.
  revert n. induction s as [|c s IH]; intros n Hn Hb.
  { right. exists n. split; [done|].
    change (10 ^ Z.of_nat (length (@nil byte))) with 1. lia. }
  cbn [strconv.parseDigits length] in *.
  rewrite Nat2Z.inj_succ, Z.pow_succ_r in Hb by lia.
  rewrite Nat2Z.inj_succ, Z.pow_succ_r by lia.
  destruct (strconv.digitVal c) as [d|] eqn:Hd; [|by left].
  apply digitVal_Some in Hd.
  assert (0 < 10 ^ Z.of_nat (length s)) as Hpos by (apply Z.pow_pos_nonneg; lia).
  assert (strconv.maxUint64 / 10 + 1 = 1844674407370955162) as Hcut by reflexivity.
  assert (strconv.maxUint64 = 18446744073709551615) as Hm by reflexivity.
  assert (n * 10 + d + 1 <= (n + 1) * 10) as Hle by lia.
  assert ((n * 10 + d + 1) * 10 ^ Z.of_nat (length s) <= 2 ^ 63) as Hb'.
  { etrans; [|exact Hb].
    replace ((n + 1) * (10 * 10 ^ Z.of_nat (length s)))
      with (((n + 1) * 10) * 10 ^ Z.of_nat (length s)) by lia.
    apply Z.mul_le_mono_nonneg_r; lia. }
  assert (n * 10 + d + 1 <= 2 ^ 63) as Hsmall by nia.
  change (2 ^ 63) with 9223372036854775808 in Hsmall.
  destruct (Z.leb_spec (strconv.maxUint64 / 10 + 1) n); [lia|].
  destruct (Z.ltb_spec strconv.maxUint64 (n * 10 + d)); [lia|].
  destruct (IH (n * 10 + d)) as [?|(v & ? & ? & ?)]; [lia|done|by left|].
  right. exists v. split; [done|]. split; [done|].
  eapply Z.lt_le_trans; [eassumption|].
  replace ((n + 1) * (10 * 10 ^ Z.of_nat (length s)))
    with (((n + 1) * 10) * 10 ^ Z.of_nat (length s)) by lia.
  apply Z.mul_le_mono_nonneg_r; lia.
Qed.

Lemma isDigit_not_sign (c : byte) : isDigit c → c ≠ x2b ∧ c ≠ x2d.
Proof. intros [H1 H2]. split; intros ->; vm_compute in H1; congruence. Qed.

(** [ParseInt] on a non-empty sequence of digits returns the number they
    denote. *)
Lemma ParseInt_digits (l : list byte) :
  l ≠ [] → Forall isDigit l → decimal l < 2 ^ 63 →
  strconv.ParseInt (string_of_list_byte l) = (decimal l, None).
Proof.
  intros Hne Hl Hmax. unfold strconv.ParseInt.
  rewrite list_byte_of_string_of_list_byte.
  destruct l as [|c l]; [done|].
  pose proof (Forall_inv Hl) as Hc. apply isDigit_not_sign in Hc as [Hp Hm].
  rewrite (bool_decide_eq_false_2 (c = x2d)) by done.
  rewrite bool_decide_eq_false_2 by tauto.
  unfold strconv.ParseUint.
  change (2 ^ 63) with 9223372036854775808 in *.
  rewrite parseDigits_digits; [|done|lia|].
  2:{ change strconv.maxUint64 with 18446744073709551615.
      unfold decimal in Hmax. lia. }
  fold (decimal (c :: l)).
  cbn [negb andb]. destruct (Z.leb_spec 9223372036854775808 (decimal (c :: l))); [lia|done].
Qed.

(** On at most 18 characters [ParseInt] never reports a range error: it
    returns a value without error, or 0 with a syntax error. *)
Lemma ParseInt_short (l : list byte) :
  (length l <= 18)%nat →
  strconv.ParseInt (string_of_list_byte l) = (0, Some strconv.ErrSyntax)
  ∨ ∃ v, strconv.ParseInt (string_of_list_byte l) = (v, None).
Proof.
  intros Hlen. unfold strconv.ParseInt.
  rewrite list_byte_of_string_of_list_byte.
  destruct l as [|c l]; [by left|].
  set (s1 := if bool_decide (c = x2b ∨ c = x2d) then l else c :: l).
  assert (length s1 <= 18)%nat as Hs1.
  { subst s1. case_bool_decide; cbn [length] in *; lia. }
  assert (strconv.ParseUint s1 = (0, Some strconv.ErrSyntax)
          ∨ ∃ v, strconv.ParseUint s1 = (v, None) ∧ 0 <= v ∧ v < 2 ^ 63) as Hu.
  { unfold strconv.ParseUint. destruct s1 as [|c1 s1]; [by left|].
    assert (10 ^ Z.of_nat (length (c1 :: s1)) <= 10 ^ 18) as Hpow.
    { apply Z.pow_le_mono_r; lia. }
    destruct (parseDigits_cases (c1 :: s1) 0) as [?|(v & ? & ? & ?)];
      [lia| |by left|].
    { change (2 ^ 63) with 9223372036854775808.
      change (10 ^ 18) with 1000000000000000000 in Hpow. lia. }
    right. exists v. split; [done|].
    change (2 ^ 63) with 9223372036854775808.
    change (10 ^ 18) with 1000000000000000000 in Hpow. lia. }
  destruct Hu as [-> | (v & -> & Hv0 & Hv)]; [by left|].
  right. change (2 ^ 63) with 9223372036854775808 in *.
  destruct (bool_decide (c = x2d)); cbn [negb andb].
  - destruct (Z.ltb_spec 9223372036854775808 v); [lia|]. by eexists.
  - destruct (Z.leb_spec 9223372036854775808 v); [lia|]. by eexists.
Qed.

(** [Itoa] of a number that is not negative: its decimal digits. *)
Lemma Itoa_digits (e : Z) :
  0 <= e → e < 2 ^ 63 →
  ∃ ds, list_byte_of_string (strconv.Itoa e) = ds
        ∧ Forall isDigit ds
        ∧ decimal ds = e
        ∧ e < 10 ^ Z.of_nat (length ds)
        ∧ (length ds = 1%nat ∨ 10 ^ (Z.of_nat (length ds) - 1) <= e).
Proof.
  intros H0 Hmax. unfold strconv.Itoa, strconv.FormatInt.
  rewrite list_byte_of_string_of_list_byte.
  destruct (Z.ltb_spec e 0); [lia|].
  destruct (formatBits_spec 20 e []) as (ds & Heq & ?); [lia|lia| |].
  { change (2 ^ 63) with 9223372036854775808 in Hmax.
    change (10 ^ Z.of_nat 20) with 100000000000000000000. lia. }
  rewrite app_nil_r in Heq. exists ds. by rewrite Heq.
Qed.

(** A timestamp between September 2001 and November 2286 prints as
    exactly ten digits. *)
Lemma Itoa_ten_digits (e : Z) :
  10 ^ 9 <= e → e < 10 ^ 10 →
  ∃ ds, list_byte_of_string (strconv.Itoa e) = ds
        ∧ length ds = 10%nat ∧ Forall isDigit ds ∧ decimal ds = e.
Proof.
  intros Hlo Hhi.
  destruct (Itoa_digits e) as (ds & Heq & Hds & Hval & Hup & Hlow).
  { change (10 ^ 9) with 1000000000 in Hlo. lia. }
  { change (10 ^ 10) with 10000000000 in Hhi.
    change (2 ^ 63) with 9223372036854775808. lia. }
  exists ds. repeat split; try done.
  assert (9 < Z.of_nat (length ds)) as H1.
  { apply (Z.pow_lt_mono_r_iff 10); lia. }
  destruct Hlow as [Hlen | Hlow]; [lia|].
  assert (Z.of_nat (length ds) - 1 < 10) as H2.
  { apply (Z.pow_lt_mono_r_iff 10); lia. }
  lia.
Qed.

(** ** The decoder *)

Lemma ParseCacheItem_short (item : slice) :
  len item < 11 → ParseCacheItem item = Done (0, None).
Proof.
  intros H. unfold ParseCacheItem.
  by destruct (Z.ltb_spec (len item) 11); [|lia].
Qed.

Lemma ParseCacheItem_long (l : list byte) :
  (11 <= length l)%nat →
  ParseCacheItem (Some l)
  = Done ((strconv.ParseInt (string_of_list_byte (take 10 l))).1,
          Some (drop 11 l)).
Proof.
  intros H. unfold ParseCacheItem.
  assert (len (Some l) = Z.of_nat (length l)) as Hlen by reflexivity.
  destruct (Z.ltb_spec (len (Some l)) 11); [lia|].
  rewrite !slice_expr_ok by lia. rewrite Hlen.
  change (Z.to_nat (10 - 0)) with 10%nat. change (Z.to_nat 0) with 0%nat.
  change (Z.to_nat 11) with 11%nat. rewrite drop_0.
  rewrite (take_ge (drop 11 l)) by (rewrite length_drop; lia).
  unfold string_of_slice. simpl data.
  by destruct (strconv.ParseInt _).
Qed.

(** A stored value and the expiry the decoder reads from it. *)
Lemma ParseCacheItem_total (v : list byte) :
  ∃ expire payload, ParseCacheItem (Some v) = Done (expire, payload).
Proof.
  destruct (decide (length v < 11)%nat).
  - exists 0, None. apply ParseCacheItem_short. unfold len. simpl. lia.
  - eexists _, _. apply ParseCacheItem_long. lia.
Qed.

(** C6: [ParseCacheItem] returns [(0, nil)], without panicking, on every
    input shorter than 11 bytes (the nil slice included).  On an input of
    at least 11 bytes it returns what [strconv.ParseInt] reads from the
    first 10 bytes -- 0 when the parse fails, the number the bytes denote
    when they are ten digits -- and the bytes from index 11 on. *)
Theorem ParseCacheItem_decodes (item : slice) :
  (len item < 11 → ParseCacheItem item = Done (0, None))
  ∧ (11 <= len item →
     ∃ expire err,
       strconv.ParseInt (string_of_list_byte (take 10 (data item)))
       = (expire, err)
       ∧ ParseCacheItem item = Done (expire, Some (drop 11 (data item)))
       ∧ (err ≠ None → expire = 0)
       ∧ (Forall isDigit (take 10 (data item)) →
          expire = decimal (take 10 (data item)))).
Proof.
  split; [apply ParseCacheItem_short|].
  intros Hlen. destruct item as [l|]; [|cbv in Hlen; done].
  unfold len in Hlen. simpl in Hlen. simpl data.
  destruct (strconv.ParseInt (string_of_list_byte (take 10 l)))
    as [expire err] eqn:Hparse.
  exists expire, err. split; [done|]. split.
  { rewrite ParseCacheItem_long by lia. by rewrite Hparse. }
  assert (length (take 10 l) = 10%nat) as Hten by (rewrite length_take; lia).
  split.
  - intros Herr.
    destruct (ParseInt_short (take 10 l)) as [H|[v H]]; [lia|..];
      rewrite Hparse in H; congruence.
  - intros Hdigits.
    assert (decimal (take 10 l) < 2 ^ 63) as Hbound.
    { pose proof (decimalFrom_bound 0 (take 10 l) ltac:(lia) Hdigits) as Hb.
      rewrite Hten in Hb. unfold decimal.
      change (10 ^ Z.of_nat 10) with 10000000000 in Hb.
      change (2 ^ 63) with 9223372036854775808. lia. }
    rewrite ParseInt_digits in Hparse; [congruence| |done|done].
    intros Hnil. rewrite Hnil in Hten. done.
Qed.

(** The decoder on ten bytes, any byte, and a rest. *)
Lemma ParseCacheItem_split (head rest : list byte) (c : byte) :
  length head = 10%nat →
  ParseCacheItem (Some (head ++ c :: rest))
  = Done ((strconv.ParseInt (string_of_list_byte head)).1, Some rest).
Proof.
  intros Hlen. rewrite ParseCacheItem_long.
  2:{ rewrite length_app. cbn [length]. lia. }
  rewrite take_app_length' by done.
  change (head ++ c :: rest) with (head ++ [c] ++ rest).
  rewrite app_assoc, drop_app_length'; [done|].
  rewrite length_app. cbn [length]. lia.
Qed.

(** C10: [ParseCacheItem] never looks at the byte at index 10.  Whatever
    byte [c] follows the ten bytes [head], the result is the integer read
    from [head] and the bytes after [c]; it is the result for the same
    record with the separator in place of [c]. *)
Theorem ParseCacheItem_ignores_separator (head rest : list byte) (c : byte) :
  length head = 10%nat →
  ParseCacheItem (Some (head ++ c :: rest))
  = Done ((strconv.ParseInt (string_of_list_byte head)).1, Some rest)
  ∧ ParseCacheItem (Some (head ++ c :: rest))
    = ParseCacheItem (Some (head ++ separator :: rest)).
Proof.
  intros Hlen. by rewrite !ParseCacheItem_split.
Qed.

Lemma ParseCacheItem_ignores_separator_witness :
  ParseCacheItem (Some (list_byte_of_string "1700000000" ++ x58 :: list_byte_of_string "abc"))
  = Done ((strconv.ParseInt (string_of_list_byte (list_byte_of_string "1700000000"))).1,
          Some (list_byte_of_string "abc"))
  ∧ ParseCacheItem (Some (list_byte_of_string "1700000000" ++ x58 :: list_byte_of_string "abc"))
    = ParseCacheItem (Some (list_byte_of_string "1700000000" ++ separator :: list_byte_of_string "abc")).
Proof.
  apply (ParseCacheItem_ignores_separator
           (list_byte_of_string "1700000000") (list_byte_of_string "abc") x58).
  reflexivity.
Defined.

Lemma ParseCacheItem_decodes_witness :
  ParseCacheItem (slice_of_string "160000000|") = Done (0, None)
  ∧ ∃ expire err,
      strconv.ParseInt
        (string_of_list_byte (take 10 (data (slice_of_string "1700000000|abc"))))
      = (expire, err)
      ∧ ParseCacheItem (slice_of_string "1700000000|abc")
        = Done (expire, Some (drop 11 (data (slice_of_string "1700000000|abc"))))
      ∧ (err ≠ None → expire = 0)
      ∧ (Forall isDigit (take 10 (data (slice_of_string "1700000000|abc"))) →
         expire = decimal (take 10 (data (slice_of_string "1700000000|abc")))).
Proof.
  split.
  - apply (proj1 (ParseCacheItem_decodes (slice_of_string "160000000|"))).
    reflexivity.
  - apply (proj2 (ParseCacheItem_decodes (slice_of_string "1700000000|abc"))).
    vm_compute. congruence.
Defined.

(** ** Running the engine *)

Ltac run_tx :=
  unfold bolt.View, bolt.Update, bolt.Batch, bolt.writeTx, bolt.Bucket_Get,
    bolt.Bucket_Put, bolt.Bucket_Delete, bolt.Bucket_ForEach,
    bolt.Bucket_Cursor, bolt.Tx_Bucket, bolt.contents, bolt.store,
    bolt.record, bolt.isWritable, bolt.inClosure, bolt.begin, bolt.finish,
    lift, bind, ret;
  cbn [bolt.root bolt.writable bolt.trace bolt.buckets bolt.journal negb].

Ltac run_in H :=
  run_tx; rewrite ?H; cbn beta iota zeta; rewrite ?H;
  cbn [bolt.root bolt.writable bolt.trace bolt.buckets bolt.journal negb];
  cbn beta iota zeta;
  change (data (slice_of_string ?k)) with (list_byte_of_string k) in *.

Section engine.
Context (d : bolt.DB) (bucket : list byte) (m : gmap (list byte) (list byte)).
Hypothesis Hbucket : bolt.buckets d !! bucket = Some m.

Lemma GetBytes_run (key : string) :
  GetBytes bucket key d
  = Done ((m !! list_byte_of_string key, None),
          bolt.mkDB (bolt.buckets d)
            (bolt.journal d ++
             [bolt.mkTxRecord bolt.ReadOnly
                [bolt.OpGet bucket (list_byte_of_string key)] false])).
Proof. unfold GetBytes. by run_in Hbucket. Qed.

Lemma Delete_run (key : string) :
  Delete bucket key d
  = Done (None,
          bolt.mkDB (<[bucket := delete (list_byte_of_string key) m]> (bolt.buckets d))
            (bolt.journal d ++
             [bolt.mkTxRecord bolt.ReadWrite
                [bolt.OpDelete bucket (list_byte_of_string key)] true])).
Proof. unfold Delete. by run_in Hbucket. Qed.

Lemma Has_run (key : string) :
  Has bucket key d
  = Done (0 <? len (m !! list_byte_of_string key),
          bolt.mkDB (bolt.buckets d)
            (bolt.journal d ++
             [bolt.mkTxRecord bolt.ReadOnly
                [bolt.OpGet bucket (list_byte_of_string key)] false])).
Proof. unfold Has. by run_in Hbucket. Qed.

End engine.

(** ** Point lookups *)

(** The three ways [GetCachedBytes] ends on a stored, non-empty value. *)
Lemma GetCachedBytes_run (now : Z) (d : bolt.DB)
    (bucket : list byte) (m : gmap (list byte) (list byte)) (key : string)
    (v : list byte) (expire : Z) (payload : slice) :
  bolt.buckets d !! bucket = Some m →
  m !! list_byte_of_string key = Some v →
  v ≠ [] →
  ParseCacheItem (Some v) = Done (expire, payload) →
  let get := bolt.mkTxRecord bolt.ReadOnly
               [bolt.OpGet bucket (list_byte_of_string key)] false in
  let del := bolt.mkTxRecord bolt.ReadWrite
               [bolt.OpDelete bucket (list_byte_of_string key)] true in
  let deleted :=
    bolt.mkDB (<[bucket := delete (list_byte_of_string key) m]> (bolt.buckets d))
      ((bolt.journal d ++ [get]) ++ [del]) in
  GetCachedBytes now bucket key d
  = if (0 <? expire) && (expire <? now)
    then Done ((None, errors.New "Key Expired"), deleted)
    else if expire =? 0
         then Done ((None, errors.New "Invalid Key"), deleted)
         else Done ((payload, None),
                    bolt.mkDB (bolt.buckets d) (bolt.journal d ++ [get])).
Proof.
  intros Hb Hk Hv Hparse get del deleted.
  assert ((len (Some v) =? 0) = false) as Hlen.
  { apply Z.eqb_neq. unfold len. destruct v; [done|]. simpl. lia. }
  pose proof (GetBytes_run d bucket m Hb key) as Hget.
  unfold GetBytes in Hget.
  unfold GetCachedBytes, bind at 1. rewrite Hget, Hk.
  rewrite (bool_decide_eq_false_2 (@None string ≠ None))
    by (intros H; by apply H).
  rewrite Hlen. cbn [orb].
  unfold bind at 1, lift at 1. rewrite Hparse.
  set (d1 := bolt.mkDB _ _).
  pose proof (Delete_run d1 bucket m Hb key) as Hdel.
  destruct ((0 <? expire) && (expire <? now)).
  - unfold bind at 1. by rewrite Hdel.
  - destruct (expire =? 0); [|done].
    unfold bind at 1. by rewrite Hdel.
Qed.

(** C1 (amended): for a stored, non-empty value whose decoded expiry is
    [expire], [GetCachedBytes] deletes the key and reports "Invalid Key"
    when [expire = 0]; deletes the key and reports "Key Expired" when
    [0 < expire < now]; and returns the payload with a nil error, leaving
    the store as it was, when [expire] is positive and not below [now] --
    a record whose expiry equals the current time is still a hit. *)
Theorem GetCachedBytes_trichotomy (now : Z) (d : bolt.DB)
    (bucket : list byte) (m : gmap (list byte) (list byte)) (key : string)
    (v : list byte) (expire : Z) (payload : slice) :
  bolt.buckets d !! bucket = Some m →
  m !! list_byte_of_string key = Some v →
  v ≠ [] →
  ParseCacheItem (Some v) = Done (expire, payload) →
  (expire = 0 →
   ∃ d', GetCachedBytes now bucket key d
         = Done ((None, errors.New "Invalid Key"), d')
         ∧ bolt.buckets d'
           = <[bucket := delete (list_byte_of_string key) m]> (bolt.buckets d))
  ∧ (0 < expire ∧ expire < now →
     ∃ d', GetCachedBytes now bucket key d
           = Done ((None, errors.New "Key Expired"), d')
           ∧ bolt.buckets d'
             = <[bucket := delete (list_byte_of_string key) m]> (bolt.buckets d))
  ∧ (0 < expire ∧ now <= expire →
     ∃ d', GetCachedBytes now bucket key d = Done ((payload, None), d')
           ∧ bolt.buckets d' = bolt.buckets d).
Proof.
  intros Hb Hk Hv Hparse.
  rewrite (GetCachedBytes_run now d bucket m key v expire payload) by done.
  split; [|split].
  - intros ->. cbn [Z.ltb Z.compare andb Z.eqb]. eexists. split; reflexivity.
  - intros [H1 H2].
    destruct (Z.ltb_spec 0 expire); [|lia].
    destruct (Z.ltb_spec expire now); [|lia]. cbn [andb].
    eexists. split; reflexivity.
  - intros [H1 H2].
    destruct (Z.ltb_spec 0 expire); [|lia].
    destruct (Z.ltb_spec expire now); [lia|]. cbn [andb].
    destruct (Z.eqb_spec expire 0); [lia|].
    eexists. split; reflexivity.
Qed.

Lemma GetCachedBytes_trichotomy_witness :
  ∃ d', GetCachedBytes 1700000000 exBucket "k" (exStore exRecord)
        = Done ((Some (list_byte_of_string "v"), None), d')
        ∧ bolt.buckets d' = bolt.buckets (exStore exRecord).
Proof.
  apply (GetCachedBytes_trichotomy 1700000000 (exStore exRecord) exBucket
           exRecord "k" (list_byte_of_string "1700000000|v") 1700000000
           (Some (list_byte_of_string "v")));
    [vm_compute; reflexivity | vm_compute; reflexivity | discriminate
    | vm_compute; reflexivity | lia].
Defined.

(** C1, as the claim states it, fails at the instant of expiry: the
    record ["1700000000|v"] decodes to the expiry 1700000000, which is not
    strictly greater than the current time 1700000000, and the lookup at
    that time is a valid hit that leaves the record in place. *)
Lemma GetCachedBytes_hit_at_expiry :
  ParseCacheItem (Some (list_byte_of_string "1700000000|v"))
  = Done (1700000000, Some (list_byte_of_string "v"))
  ∧ ¬ (1700000000 < 1700000000)
  ∧ ∃ d', GetCachedBytes 1700000000 exBucket "k" (exStore exRecord)
          = Done ((Some (list_byte_of_string "v"), None), d')
          ∧ bolt.buckets d' = bolt.buckets (exStore exRecord).
Proof.
  split; [vm_compute; reflexivity|]. split; [lia|].
  eexists. split; vm_compute; reflexivity.
Qed.

(** [GetCachedBytes] on a key that is absent or holds no bytes. *)
Lemma GetCachedBytes_miss (now : Z) (d : bolt.DB)
    (bucket : list byte) (m : gmap (list byte) (list byte)) (key : string) :
  bolt.buckets d !! bucket = Some m →
  m !! list_byte_of_string key = None ∨ m !! list_byte_of_string key = Some [] →
  GetCachedBytes now bucket key d
  = Done ((None, None),
          bolt.mkDB (bolt.buckets d)
            (bolt.journal d ++
             [bolt.mkTxRecord bolt.ReadOnly
                [bolt.OpGet bucket (list_byte_of_string key)] false])).
Proof.
  intros Hb Hk.
  pose proof (GetBytes_run d bucket m Hb key) as Hget.
  unfold GetBytes in Hget.
  unfold GetCachedBytes, bind at 1. rewrite Hget.
  by destruct Hk as [-> | ->].
Qed.

(** C4 (amended): the code has no "not found" error.  For a key that is
    absent from the bucket, or stored with a zero-length value, [Get]
    returns the empty string with a nil error, and [GetCached] likewise
    returns the empty string with a nil error; neither changes the
    store. *)
Theorem Get_absent_no_error (now : Z) (d : bolt.DB)
    (bucket : list byte) (m : gmap (list byte) (list byte)) (key : string) :
  bolt.buckets d !! bucket = Some m →
  m !! list_byte_of_string key = None ∨ m !! list_byte_of_string key = Some [] →
  (∃ d', Get bucket key d = Done ((""%string, None), d')
         ∧ bolt.buckets d' = bolt.buckets d)
  ∧ (∃ d', GetCached now bucket key d = Done ((""%string, None), d')
           ∧ bolt.buckets d' = bolt.buckets d).
Proof.
  intros Hb Hk. split.
  - unfold Get, bind. rewrite (GetBytes_run d bucket m Hb key).
    destruct Hk as [-> | ->]; eexists; split; reflexivity.
  - unfold GetCached, bind.
    rewrite (GetCachedBytes_miss now d bucket m key Hb Hk).
    eexists. split; reflexivity.
Qed.

Lemma Get_absent_no_error_witness :
  (∃ d', Get exBucket "k" (exStore ∅) = Done ((""%string, None), d')
         ∧ bolt.buckets d' = bolt.buckets (exStore ∅))
  ∧ (∃ d', GetCached 1700000000 exBucket "k" (exStore ∅)
           = Done ((""%string, None), d')
           ∧ bolt.buckets d' = bolt.buckets (exStore ∅)).
Proof.
  apply (Get_absent_no_error 1700000000 (exStore ∅) exBucket ∅ "k");
    [vm_compute; reflexivity | left; vm_compute; reflexivity].
Defined.

(** C4, as the claim states it, fails on the empty bucket: [Get] and
    [GetCached] of the absent key ["k"] return a nil error, not a
    NotFound error. *)
Lemma Get_absent_returns_nil_error :
  (∃ value err d', Get exBucket "k" (exStore ∅) = Done ((value, err), d')
                   ∧ err = None)
  ∧ (∃ value err d', GetCached 1700000000 exBucket "k" (exStore ∅)
                     = Done ((value, err), d')
                     ∧ err = None).
Proof. split; do 3 eexists; split; vm_compute; reflexivity. Qed.

(** C9: [Has] returns [true] exactly when a non-empty value is stored
    under the key, and does not change the store.  It does not look at the
    expiry: for a stored record that [ParseCacheItem] decodes to an expiry
    in the past ([0 < expire < now], which [GetCachedBytes] reports as
    expired) it returns [true]; for an absent key and for an empty value
    it returns [false]. *)
Theorem Has_iff_nonempty (d : bolt.DB) (bucket : list byte)
    (m : gmap (list byte) (list byte)) (key : string) :
  bolt.buckets d !! bucket = Some m →
  ∃ res d',
    Has bucket key d = Done (res, d')
    ∧ bolt.buckets d' = bolt.buckets d
    ∧ (res = true ↔ ∃ v, m !! list_byte_of_string key = Some v ∧ v ≠ [])
    ∧ (m !! list_byte_of_string key = None → res = false)
    ∧ (m !! list_byte_of_string key = Some [] → res = false)
    ∧ (∀ now v expire payload,
         m !! list_byte_of_string key = Some v →
         ParseCacheItem (Some v) = Done (expire, payload) →
         0 < expire ∧ expire < now →
         res = true
         ∧ ∃ d'', GetCachedBytes now bucket key d
                  = Done ((None, errors.New "Key Expired"), d'')).
Proof.
  intros Hb. rewrite (Has_run d bucket m Hb key).
  eexists _, _. split; [reflexivity|]. split; [reflexivity|].
  assert (∀ v : list byte, v ≠ [] → (0 <? len (Some v)) = true) as Hpos.
  { intros v Hv. apply Z.ltb_lt. unfold len. destruct v; [done|]. simpl. lia. }
  split; [|split; [|split]].
  - split.
    + destruct (m !! list_byte_of_string key) as [v|]; [|done].
      intros Hres. exists v. split; [done|]. by intros ->.
    + intros (v & -> & Hv). by apply Hpos.
  - by intros ->.
  - by intros ->.
  - intros now v expire payload Hk Hparse [H1 H2].
    assert (v ≠ []) as Hv.
    { intros ->. rewrite ParseCacheItem_short in Hparse by done.
      inversion Hparse. lia. }
    split; [rewrite Hk; by apply Hpos|].
    rewrite (GetCachedBytes_run now d bucket m key v expire payload) by done.
    destruct (Z.ltb_spec 0 expire); [|lia].
    destruct (Z.ltb_spec expire now); [|lia]. by eexists.
Qed.

Lemma Has_iff_nonempty_witness :
  ∃ res d',
    Has exBucket "k" (exStore exRecord) = Done (res, d')
    ∧ bolt.buckets d' = bolt.buckets (exStore exRecord)
    ∧ (res = true
       ↔ ∃ v, exRecord !! list_byte_of_string "k" = Some v ∧ v ≠ [])
    ∧ (exRecord !! list_byte_of_string "k" = None → res = false)
    ∧ (exRecord !! list_byte_of_string "k" = Some [] → res = false)
    ∧ (∀ now v expire payload,
         exRecord !! list_byte_of_string "k" = Some v →
         ParseCacheItem (Some v) = Done (expire, payload) →
         0 < expire ∧ expire < now →
         res = true
         ∧ ∃ d'', GetCachedBytes now exBucket "k" (exStore exRecord)
                  = Done ((None, errors.New "Key Expired"), d'')).
Proof.
  apply (Has_iff_nonempty (exStore exRecord) exBucket exRecord "k").
  vm_compute. reflexivity.
Defined.

(** ** The encoder *)

Lemma cacheItem_data (now seconds : Z) (value : slice) :
  data (cacheItem now seconds value)
  = list_byte_of_string (strconv.Itoa (now + seconds))
    ++ separator :: data value.
Proof.
  unfold cacheItem, append, slice_of_string, util.NowPlusSecondsInt.
  cbn [data default option_rect from_option id].
  rewrite list_byte_of_string_app, <- app_assoc. reflexivity.
Qed.

(** A record written with an expiry of ten digits decodes to that expiry
    and to the payload. *)
Lemma ParseCacheItem_cacheItem (now seconds : Z) (value : slice) :
  10 ^ 9 <= now + seconds → now + seconds < 10 ^ 10 →
  ParseCacheItem (Some (data (cacheItem now seconds value)))
  = Done (now + seconds, Some (data value)).
Proof.
  intros Hlo Hhi. rewrite cacheItem_data.
  destruct (Itoa_ten_digits (now + seconds) Hlo Hhi)
    as (ds & -> & Hlen & Hds & Hval).
  rewrite (ParseCacheItem_split ds (data value) separator Hlen).
  rewrite ParseInt_digits; [by rewrite Hval|by destruct ds|done|].
  rewrite Hval. change (10 ^ 10) with 10000000000 in Hhi.
  change (2 ^ 63) with 9223372036854775808. lia.
Qed.

Lemma SetCachedBytes_run (now : Z) (d : bolt.DB) (bucket : list byte)
    (m : gmap (list byte) (list byte)) (seconds : Z) (key : string)
    (value : slice) :
  bolt.buckets d !! bucket = Some m →
  0 < len (slice_of_string key) →
  len (slice_of_string key) <= bolt.MaxKeySize →
  len (cacheItem now seconds value) <= bolt.MaxValueSize →
  SetCachedBytes now bucket seconds key value d
  = Done (None,
          bolt.mkDB
            (<[bucket := <[list_byte_of_string key
                           := data (cacheItem now seconds value)]> m]>
               (bolt.buckets d))
            (bolt.journal d ++
             [bolt.mkTxRecord bolt.ReadWrite
                [bolt.OpPut bucket (list_byte_of_string key)
                   (data (cacheItem now seconds value))] true])).
Proof.
  intros Hb Hk0 Hk1 Hv. unfold SetCachedBytes. run_in Hb.
  destruct (Z.eqb_spec (len (slice_of_string key)) 0); [lia|].
  destruct (Z.ltb_spec bolt.MaxKeySize (len (slice_of_string key))); [lia|].
  destruct (Z.ltb_spec bolt.MaxValueSize (len (cacheItem now seconds value)));
    [lia|].
  reflexivity.
Qed.

(** C3 (amended): [SetCachedBytes] stores, under the key, the decimal
    representation of [now+seconds] as [strconv.Itoa] prints it (no
    padding), followed by the separator ['|'], followed by the payload.
    When [10^9 <= now+seconds < 10^10] that representation is exactly ten
    digits denoting [now+seconds], so the stored value has at least 11
    bytes and its first ten are digits. *)
Theorem SetCachedBytes_encoding (now seconds : Z) (d : bolt.DB)
    (bucket : list byte) (m : gmap (list byte) (list byte)) (key : string)
    (value : slice) :
  bolt.buckets d !! bucket = Some m →
  0 < len (slice_of_string key) →
  len (slice_of_string key) <= bolt.MaxKeySize →
  len (cacheItem now seconds value) <= bolt.MaxValueSize →
  ∃ d' stored,
    SetCachedBytes now bucket seconds key value d = Done (None, d')
    ∧ bolt.buckets d'
      = <[bucket := <[list_byte_of_string key := stored]> m]> (bolt.buckets d)
    ∧ stored = list_byte_of_string (strconv.Itoa (now + seconds))
               ++ separator :: data value
    ∧ (10 ^ 9 <= now + seconds ∧ now + seconds < 10 ^ 10 →
       (11 <= length stored)%nat
       ∧ length (take 10 stored) = 10%nat
       ∧ Forall isDigit (take 10 stored)
       ∧ decimal (take 10 stored) = now + seconds
       ∧ stored !! 10%nat = Some separator
       ∧ drop 11 stored = data value).
Proof.
  intros Hb Hk0 Hk1 Hv.
  rewrite (SetCachedBytes_run now d bucket m seconds key value) by done.
  eexists _, _. split; [reflexivity|]. split; [reflexivity|].
  rewrite cacheItem_data. split; [reflexivity|].
  intros [Hlo Hhi].
  destruct (Itoa_ten_digits (now + seconds) Hlo Hhi)
    as (ds & -> & Hlen & Hds & Hval).
  rewrite take_app_length' by done.
  rewrite length_app. cbn [length].
  repeat split; try done; try lia.
  - rewrite lookup_app_r by lia. by rewrite Hlen.
  - change (ds ++ separator :: data value)
      with (ds ++ [separator] ++ data value).
    rewrite app_assoc, drop_app_length'; [done|].
    rewrite length_app. cbn [length]. lia.
Qed.

Lemma SetCachedBytes_encoding_witness :
  ∃ d' stored,
    SetCachedBytes 1700000000 exBucket 3600 "k"
      (Some (list_byte_of_string "v")) (exStore ∅) = Done (None, d')
    ∧ bolt.buckets d'
      = <[exBucket := <[list_byte_of_string "k" := stored]> ∅]>
          (bolt.buckets (exStore ∅))
    ∧ stored = list_byte_of_string (strconv.Itoa (1700000000 + 3600))
               ++ separator :: data (Some (list_byte_of_string "v"))
    ∧ (10 ^ 9 <= 1700000000 + 3600 ∧ 1700000000 + 3600 < 10 ^ 10 →
       (11 <= length stored)%nat
       ∧ length (take 10 stored) = 10%nat
       ∧ Forall isDigit (take 10 stored)
       ∧ decimal (take 10 stored) = 1700000000 + 3600
       ∧ stored !! 10%nat = Some separator
       ∧ drop 11 stored = data (Some (list_byte_of_string "v"))).
Proof.
  apply (SetCachedBytes_encoding 1700000000 3600 (exStore ∅) exBucket ∅ "k"
           (Some (list_byte_of_string "v")));
    [vm_compute; reflexivity | reflexivity
    | vm_compute; congruence | vm_compute; congruence].
Defined.

(** C3, as the claim states it, fails when [now+seconds] has fewer than
    ten digits: with the clock at 1700000000 and [seconds = -1000000000]
    the value stored for an empty payload is ["700000000|"], which has 10
    bytes, not 11, and whose tenth byte is the separator, not a digit.  It
    also fails at eleven digits: with [seconds = 9000000000] the stored
    value is ["10700000000|v"], whose byte at index 10 is a digit, not the
    separator. *)
Lemma SetCachedBytes_not_ten_digits :
  (∃ d', SetCachedBytes 1700000000 exBucket (-1000000000) "k" None (exStore ∅)
         = Done (None, d')
         ∧ bolt.buckets d' !! exBucket
           = Some {[ list_byte_of_string "k" := list_byte_of_string "700000000|" ]}
         ∧ length (list_byte_of_string "700000000|") = 10%nat
         ∧ list_byte_of_string "700000000|" !! 9%nat = Some separator
         ∧ ¬ isDigit separator)
  ∧ (∃ d', SetCachedBytes 1700000000 exBucket 9000000000 "k"
             (Some (list_byte_of_string "v")) (exStore ∅)
           = Done (None, d')
           ∧ bolt.buckets d' !! exBucket
             = Some {[ list_byte_of_string "k" := list_byte_of_string "10700000000|v" ]}
           ∧ list_byte_of_string "10700000000|v" !! 10%nat = Some x30
           ∧ x30 ≠ separator).
Proof.
  split.
  - eexists. split; [vm_compute; reflexivity|].
    split; [vm_compute; reflexivity|].
    split; [reflexivity|]. split; [reflexivity|].
    intros [_ H]. vm_compute in H. congruence.
  - eexists. split; [vm_compute; reflexivity|].
    split; [vm_compute; reflexivity|].
    split; [reflexivity|]. discriminate.
Qed.

(** ** Writing a cached record and reading it back *)

(** C2 (amended): let [SetCached] run at time [t0] with [ttl > 0], a key
    and a value the engine accepts, and an expiry [t0+ttl] of exactly ten
    digits ([10^9 <= t0+ttl < 10^10]).  Then it stores the record, and a
    following [GetCached] at a time [t1] returns the value with a nil
    error and an unchanged store when [t1 < t0+ttl], and returns the error
    "Key Expired" and leaves the key deleted, the other keys of the bucket
    as before, when [t0+ttl < t1]. *)
Theorem SetCached_then_GetCached (t0 ttl t1 : Z) (d : bolt.DB)
    (bucket : list byte) (m : gmap (list byte) (list byte))
    (key value : string) :
  bolt.buckets d !! bucket = Some m →
  0 < len (slice_of_string key) →
  len (slice_of_string key) <= bolt.MaxKeySize →
  len (cacheItem t0 ttl (slice_of_string value)) <= bolt.MaxValueSize →
  0 < ttl → 10 ^ 9 <= t0 + ttl → t0 + ttl < 10 ^ 10 →
  ∃ d1,
    SetCached t0 bucket ttl key value d = Done (None, d1)
    ∧ (t1 < t0 + ttl →
       ∃ d2, GetCached t1 bucket key d1 = Done ((value, None), d2)
             ∧ bolt.buckets d2 = bolt.buckets d1)
    ∧ (t0 + ttl < t1 →
       ∃ d2 m2,
         GetCached t1 bucket key d1
         = Done ((""%string, errors.New "Key Expired"), d2)
         ∧ bolt.buckets d2 !! bucket = Some m2
         ∧ m2 !! list_byte_of_string key = None
         ∧ ∀ k, k ≠ list_byte_of_string key → m2 !! k = m !! k).
Proof.
  intros Hb Hk0 Hk1 Hv Httl Hlo Hhi.
  unfold SetCached.
  rewrite (SetCachedBytes_run t0 d bucket m ttl key (slice_of_string value))
    by done.
  set (item := data (cacheItem t0 ttl (slice_of_string value))).
  set (m1 := <[list_byte_of_string key := item]> m).
  set (d1 := bolt.mkDB _ _).
  exists d1. split; [reflexivity|].
  assert (bolt.buckets d1 !! bucket = Some m1) as Hb1
    by apply lookup_insert_eq.
  assert (m1 !! list_byte_of_string key = Some item) as Hk
    by apply lookup_insert_eq.
  assert (ParseCacheItem (Some item)
          = Done (t0 + ttl, Some (list_byte_of_string value))) as Hparse
    by (by apply ParseCacheItem_cacheItem).
  assert (item ≠ []) as Hne.
  { subst item. rewrite cacheItem_data. intros Hnil.
    by apply app_eq_nil in Hnil as [_ ?]. }
  pose proof (GetCachedBytes_run t1 d1 bucket m1 key item (t0 + ttl)
                (Some (list_byte_of_string value)) Hb1 Hk Hne Hparse) as Hrun.
  cbv zeta in Hrun. unfold GetCached, bind. rewrite Hrun.
  change (10 ^ 9) with 1000000000 in Hlo.
  destruct (Z.ltb_spec 0 (t0 + ttl)); [|lia]. cbn [andb].
  split.
  - intros Ht1. destruct (Z.ltb_spec (t0 + ttl) t1); [lia|].
    destruct (Z.eqb_spec (t0 + ttl) 0); [lia|].
    change (Some (list_byte_of_string value)) with (slice_of_string value).
    rewrite slice_string_roundtrip.
    eexists. split; reflexivity.
  - intros Ht1. destruct (Z.ltb_spec (t0 + ttl) t1); [|lia].
    eexists _, _. split; [reflexivity|].
    split; [apply lookup_insert_eq|].
    split; [apply lookup_delete_eq|].
    intros k Hkne. subst m1.
    rewrite lookup_delete_ne, lookup_insert_ne; done.
Qed.

Lemma SetCached_then_GetCached_witness :
  ∃ d1,
    SetCached 1700000000 exBucket 3600 "k" "v" (exStore ∅) = Done (None, d1)
    ∧ (1700000001 < 1700000000 + 3600 →
       ∃ d2, GetCached 1700000001 exBucket "k" d1
             = Done (("v"%string, None), d2)
             ∧ bolt.buckets d2 = bolt.buckets d1)
    ∧ (1700000000 + 3600 < 1700000001 →
       ∃ d2 m2,
         GetCached 1700000001 exBucket "k" d1
         = Done ((""%string, errors.New "Key Expired"), d2)
         ∧ bolt.buckets d2 !! exBucket = Some m2
         ∧ m2 !! list_byte_of_string "k" = None
         ∧ ∀ k, k ≠ list_byte_of_string "k" →
                m2 !! k = (∅ : gmap (list byte) (list byte)) !! k).
Proof.
  apply (SetCached_then_GetCached 1700000000 3600 1700000001 (exStore ∅)
           exBucket ∅ "k" "v");
    [vm_compute; reflexivity | reflexivity | vm_compute; congruence
    | vm_compute; congruence | lia | lia | lia].
Defined.

(** C2, as the claim states it, fails for a TTL that pushes the expiry
    to eleven digits: written at time 1700000000 with
    [ttlSeconds = 9000000000], the record reads back as expired one second
    later, long before the TTL has elapsed, and the key is deleted. *)
Lemma SetCached_long_ttl_expires_at_once :
  0 < 9000000000
  ∧ 1700000001 < 1700000000 + 9000000000
  ∧ ∃ d1 d2,
      SetCached 1700000000 exBucket 9000000000 "k" "v" (exStore ∅)
      = Done (None, d1)
      ∧ GetCached 1700000001 exBucket "k" d1
        = Done ((""%string, errors.New "Key Expired"), d2)
      ∧ bolt.buckets d2 !! exBucket = Some ∅.
Proof.
  split; [lia|]. split; [lia|].
  eexists _, _. split; [vm_compute; reflexivity|].
  split; vm_compute; reflexivity.
Qed.

(** ** Batch deletion *)

Lemma lookup_deleteAll (keys : list (list byte))
    (m : gmap (list byte) (list byte)) (k : list byte) :
  deleteAll keys m !! k = if decide (k ∈ keys) then None else m !! k.
Proof.
  unfold deleteAll. revert m.
  induction keys as [|k' keys IH]; intros m; cbn [foldl].
  { case_decide as H; [by apply elem_of_nil in H|done]. }
  rewrite IH. destruct (decide (k = k')) as [->|Hne].
  - rewrite lookup_delete_eq. rewrite (decide_True (P := k' ∈ k' :: keys)) by left.
    by case_decide.
  - rewrite lookup_delete_ne by done.
    case_decide as H1; case_decide as H2; try done.
    + exfalso. apply H2. by right.
    + apply elem_of_cons in H2 as [?|?]; congruence.
Qed.

Lemma deleteAll_idempotent (keys : list (list byte))
    (m : gmap (list byte) (list byte)) :
  deleteAll keys (deleteAll keys m) = deleteAll keys m.
Proof.
  apply map_eq. intros k. rewrite !lookup_deleteAll. by case_decide.
Qed.

Lemma batchDeleteLoop_run (name : list byte) (keys : list string)
    (root : gmap (list byte) (gmap (list byte) (list byte)))
    (trace : list bolt.Op) (m : gmap (list byte) (list byte)) :
  root !! name = Some m →
  batchDeleteLoop (Some name) keys (bolt.mkTx true root trace)
  = Done ((), bolt.mkTx true
                (<[name := deleteAll (list_byte_of_string <$> keys) m]> root)
                (trace ++ (bolt.OpDelete name ∘ list_byte_of_string <$> keys))).
Proof.
  revert root trace m.
  induction keys as [|key keys IH]; intros root trace m Hm.
  { cbn. by rewrite insert_id, app_nil_r. }
  cbn [batchDeleteLoop]. unfold bind at 1.
  unfold bolt.Bucket_Delete. run_in Hm.
  rewrite (IH _ _ (delete (list_byte_of_string key) m))
    by apply lookup_insert_eq.
  rewrite insert_insert_eq, <- app_assoc. reflexivity.
Qed.

Lemma BatchDelete_run (d : bolt.DB) (bucket : list byte)
    (m : gmap (list byte) (list byte)) (keys : list string) :
  bolt.buckets d !! bucket = Some m →
  BatchDelete bucket keys d
  = Done (None,
          bolt.mkDB
            (<[bucket := deleteAll (list_byte_of_string <$> keys) m]>
               (bolt.buckets d))
            (bolt.journal d ++
             [bolt.mkTxRecord bolt.Batched
                (bolt.OpDelete bucket ∘ list_byte_of_string <$> keys) true])).
Proof.
  intros Hb. unfold BatchDelete, bolt.Batch, bolt.writeTx, bind at 1.
  unfold bind at 1, bolt.Tx_Bucket at 1, bolt.begin. cbn [bolt.root].
  rewrite Hb. unfold bind at 1.
  rewrite (batchDeleteLoop_run bucket keys _ _ m Hb). reflexivity.
Qed.

(** C7: on an existing bucket [BatchDelete] returns a nil error and leaves
    the bucket without the given keys, every other key as it was; a second
    call with the same keys returns a nil error as well and leaves every
    bucket of the store exactly as the first call left it. *)
Theorem BatchDelete_idempotent (d : bolt.DB) (bucket : list byte)
    (m : gmap (list byte) (list byte)) (keys : list string) :
  bolt.buckets d !! bucket = Some m →
  ∃ d1 d2 m1,
    BatchDelete bucket keys d = Done (None, d1)
    ∧ bolt.buckets d1 = <[bucket := m1]> (bolt.buckets d)
    ∧ (∀ k, m1 !! k = if decide (k ∈ list_byte_of_string <$> keys)
                       then None else m !! k)
    ∧ BatchDelete bucket keys d1 = Done (None, d2)
    ∧ bolt.buckets d2 = bolt.buckets d1.
Proof.
  intros Hb. pose proof (BatchDelete_run d bucket m keys Hb) as H1.
  set (m1 := deleteAll (list_byte_of_string <$> keys) m) in H1.
  set (d1 := bolt.mkDB _ _) in H1.
  assert (bolt.buckets d1 !! bucket = Some m1) as Hb1 by apply lookup_insert_eq.
  pose proof (BatchDelete_run d1 bucket m1 keys Hb1) as H2.
  set (d2 := bolt.mkDB _ _) in H2.
  exists d1, d2, m1. split; [done|]. split; [done|].
  split; [intros k; apply lookup_deleteAll|]. split; [done|].
  subst m1 d1 d2. cbn [bolt.buckets].
  by rewrite deleteAll_idempotent, insert_insert_eq.
Qed.

Lemma BatchDelete_idempotent_witness :
  ∃ d1 d2 m1,
    BatchDelete exBucket ["k"%string; "absent"%string] (exStore exRecord)
    = Done (None, d1)
    ∧ bolt.buckets d1 = <[exBucket := m1]> (bolt.buckets (exStore exRecord))
    ∧ (∀ k, m1 !! k
            = if decide (k ∈ list_byte_of_string
                               <$> ["k"%string; "absent"%string])
              then None else exRecord !! k)
    ∧ BatchDelete exBucket ["k"%string; "absent"%string] d1 = Done (None, d2)
    ∧ bolt.buckets d2 = bolt.buckets d1.
Proof.
  apply (BatchDelete_idempotent (exStore exRecord) exBucket exRecord
           ["k"%string; "absent"%string]).
  vm_compute. reflexivity.
Defined.

(** ** The order of keys *)

Section order.

Lemma to_N_inj (x y : byte) : Byte.to_N x = Byte.to_N y → x = y.
Proof.
  intros H. apply (f_equal Byte.of_N) in H.
  rewrite !Byte.of_to_N in H. congruence.
Qed.

Lemma Less_irrefl (a : list byte) : bytes.Less a a = false.
Proof.
  induction a as [|x a IH]; [done|]. cbn.
  by rewrite bool_decide_eq_true_2.
Qed.

Lemma Less_trans (a b c : list byte) :
  bytes.Less a b = true → bytes.Less b c = true → bytes.Less a c = true.
Proof.
  revert b c. induction a as [|x a IH]; intros [|y b] [|z c]; cbn; try done.
  repeat case_bool_decide; subst; try done; eauto;
    intros Hxy%N.ltb_lt Hyz%N.ltb_lt; [lia | apply N.ltb_lt; lia].
Qed.

Lemma Less_total (a b : list byte) :
  bytes.Less a b = false → bytes.Less b a = false → a = b.
Proof.
  revert b. induction a as [|x a IH]; intros [|y b]; cbn; try done.
  repeat case_bool_decide; subst; try done.
  - intros Hab Hba. f_equal. by apply IH.
  - intros Hxy%N.ltb_ge Hyx%N.ltb_ge.
    exfalso. match goal with Hne : x ≠ y |- _ => apply Hne end.
    apply to_N_inj. lia.
Qed.

Lemma Less_asym (a b : list byte) :
  bytes.Less a b = true → bytes.Less b a = false.
Proof.
  intros H. destruct (bytes.Less b a) eqn:H'; [|done].
  pose proof (Less_trans _ _ _ H H') as Haa.
  by rewrite Less_irrefl in Haa.
Qed.

Lemma not_Less_trans (a b c : list byte) :
  bytes.Less b a = false → bytes.Less c b = false → bytes.Less c a = false.
Proof.
  intros Hab Hbc. destruct (bytes.Less c a) eqn:Hca; [|done].
  destruct (bytes.Less a b) eqn:Hab'.
  - by rewrite (Less_trans _ _ _ Hca Hab') in Hbc.
  - rewrite (Less_total _ _ Hab' Hab) in Hca. congruence.
Qed.

#[global] Instance key_le_trans : Transitive bolt.key_le.
Proof. intros x y z. unfold bolt.key_le. apply not_Less_trans. Qed.

#[global] Instance key_le_total : Total bolt.key_le.
Proof.
  intros x y. unfold bolt.key_le.
  destruct (bytes.Less y.1 x.1) eqn:H; [|by left].
  right. by apply Less_asym.
Qed.

(** A key with the prefix is not below the prefix. *)
Lemma HasPrefix_not_Less (k p : list byte) :
  bytes.HasPrefix k p = true → bytes.Less k p = false.
Proof.
  revert k. induction p as [|y p IH]; intros [|x k]; cbn; try done.
  case_bool_decide; [|done]. subst. cbn. apply IH.
Qed.

(** The keys with a given prefix are contiguous: a key between the
    prefix and a key that has the prefix has the prefix too. *)
Lemma HasPrefix_between (p k k' : list byte) :
  bytes.Less k p = false → bytes.Less k' k = false →
  bytes.HasPrefix k' p = true → bytes.HasPrefix k p = true.
Proof.
  revert k k'. induction p as [|y p IH]; intros [|x k] [|z k']; cbn; try done.
  intros H1 H2 H3.
  apply andb_true_iff in H3 as [Hz H3]. apply bool_decide_eq_true in Hz.
  subst z. revert H1 H2.
  repeat case_bool_decide; subst; try done.
  - intros H1 H2. cbn. eauto.
  - intros H1%N.ltb_ge H2%N.ltb_ge. exfalso.
    match goal with H : x ≠ y |- _ => apply H end.
    apply to_N_inj. lia.
Qed.

End order.

(** ** The entries of a bucket *)

Lemma entries_Permutation (m : gmap (list byte) (list byte)) :
  bolt.entries m ≡ₚ map_to_list m.
Proof. apply merge_sort_Permutation. Qed.

Lemma elem_of_entries (m : gmap (list byte) (list byte)) (k v : list byte) :
  (k, v) ∈ bolt.entries m ↔ m !! k = Some v.
Proof. rewrite entries_Permutation. apply elem_of_map_to_list. Qed.

Lemma NoDup_entries_keys (m : gmap (list byte) (list byte)) :
  NoDup (bolt.entries m).*1.
Proof. rewrite entries_Permutation. apply NoDup_fst_map_to_list. Qed.

Lemma entries_sorted_le (m : gmap (list byte) (list byte)) :
  StronglySorted bolt.key_le (bolt.entries m).
Proof. apply (StronglySorted_merge_sort _). Qed.

Lemma sorted_le_lt (es : list (list byte * list byte)) :
  StronglySorted bolt.key_le es → NoDup es.*1 → StronglySorted key_lt es.
Proof.
  induction 1 as [|kv es Hes IH Hall]; intros Hnd; [constructor|].
  cbn in Hnd. apply NoDup_cons in Hnd as [Hnotin Hnd].
  constructor; [by apply IH|].
  apply Forall_forall. intros kv' Hin.
  rewrite Forall_forall in Hall. specialize (Hall kv' Hin).
  unfold bolt.key_le in Hall. unfold key_lt.
  destruct (bytes.Less kv.1 kv'.1) eqn:Hlt; [done|].
  exfalso. apply Hnotin.
  rewrite (Less_total _ _ Hlt Hall).
  apply list_elem_of_fmap. by exists kv'.
Qed.

(** The entries of a bucket are in strictly ascending key order. *)
Lemma entries_sorted (m : gmap (list byte) (list byte)) :
  StronglySorted key_lt (bolt.entries m).
Proof. apply sorted_le_lt; [apply entries_sorted_le|apply NoDup_entries_keys]. Qed.

(** ** Prefix scans *)

Lemma seekFrom_spec (p : list byte) (es : list (list byte * list byte)) :
  StronglySorted key_lt es →
  Forall (λ kv, bytes.Less kv.1 p = false) (bolt.seekFrom p es)
  ∧ StronglySorted key_lt (bolt.seekFrom p es)
  ∧ filter (hasPrefix p) (bolt.seekFrom p es) = filter (hasPrefix p) es
  ∧ (length (bolt.seekFrom p es) <= length es)%nat.
Proof.
  induction 1 as [|[k v] es Hes IH Hall]; [by repeat constructor|].
  cbn [bolt.seekFrom]. destruct (bytes.Less k p) eqn:Hlt.
  - destruct IH as (? & ? & Hf & ?). repeat split; try done.
    + rewrite Hf. rewrite filter_cons_False; [done|].
      unfold hasPrefix. cbn. intros Hp.
      apply HasPrefix_not_Less in Hp. congruence.
    + cbn [length]. lia.
  - repeat split; try done; [|by constructor].
    constructor; [done|].
    eapply Forall_impl; [exact Hall|]. intros kv' Hkv'. cbn in *.
    unfold key_lt in Hkv'. cbn in Hkv'.
    apply (not_Less_trans _ k); [done|by apply Less_asym].
Qed.

Lemma filter_none {B} (P : B → Prop) `{∀ x, Decision (P x)} (l : list B) :
  Forall (λ x, ¬ P x) l → filter P l = [].
Proof.
  induction 1 as [|x l Hx _ IH]; [done|].
  by rewrite filter_cons_False.
Qed.

Lemma seekLoop_calls {A : Type} (p : list byte) (callback : slice → slice → Run A ())
    (every es : list (list byte * list byte)) (steps : nat) (a : A) :
  StronglySorted key_lt es →
  Forall (λ kv, bytes.Less kv.1 p = false) es →
  (length es < steps)%nat →
  seekLoop steps (bolt.mkCursor every es) (Some p) callback a
  = calls callback (filter (hasPrefix p) es) a.
Proof.
  intros Hsorted. revert steps a.
  induction Hsorted as [|[k v] es Hes IH Hall]; intros steps a Hge Hlen.
  { destruct steps; [cbn in Hlen; lia|done]. }
  destruct steps as [|steps]; [cbn in Hlen; lia|].
  cbn [length] in Hlen.
  apply Forall_cons in Hge as [Hk Hge].
  cbn [seekLoop bolt.current bolt.ahead head].
  change (data (Some p)) with p.
  destruct (bytes.HasPrefix k p) eqn:Hp.
  - rewrite filter_cons_True by done. cbn [calls]. unfold bind.
    destruct (callback (Some k) (Some v) a) as [[[] a']|]; [|done].
    unfold bolt.Cursor_Next. cbn [bolt.all bolt.ahead tail].
    apply IH; [done|lia].
  - rewrite filter_cons_False by (unfold hasPrefix; cbn; congruence).
    replace (filter (hasPrefix p) es) with (@nil (list byte * list byte));
      [done|].
    symmetry. apply filter_none, Forall_forall.
    intros kv' Hin Hp'. rewrite Forall_forall in Hall.
    specialize (Hall kv' Hin). unfold key_lt in Hall. cbn in Hall.
    rewrite (HasPrefix_between p k kv'.1) in Hp; [done|done| |done].
    by apply Less_asym.
Qed.

(** What [Seek] does on an existing bucket: the callback runs on the
    entries that carry the prefix, in the order of the bucket. *)
Lemma Seek_run {A : Type} (d : bolt.DB) (bucket : list byte)
    (m : gmap (list byte) (list byte)) (prefix : string)
    (callback : slice → slice → Run A ()) (a : A) :
  bolt.buckets d !! bucket = Some m →
  Seek bucket prefix callback a d
  = match calls callback
            (filter (hasPrefix (list_byte_of_string prefix)) (bolt.entries m)) a
    with
    | Panics => Panics
    | Done (_, a') =>
        Done ((a', None),
              bolt.mkDB (bolt.buckets d)
                (bolt.journal d ++
                 [bolt.mkTxRecord bolt.ReadOnly [bolt.OpCursor bucket] false]))
    end.
Proof.
  intros Hb. unfold Seek. run_in Hb.
  cbn [bolt.all].
  destruct (seekFrom_spec (list_byte_of_string prefix) (bolt.entries m)
              (entries_sorted m)) as (Hge & Hsorted & Hfilter & Hlen).
  unfold bolt.Cursor_Seek. cbn [bolt.all].
  change (slice_of_string prefix) with (Some (list_byte_of_string prefix)).
  change (data (Some (list_byte_of_string prefix)))
    with (list_byte_of_string prefix).
  rewrite seekLoop_calls by (done || lia).
  rewrite Hfilter.
  by destruct (calls callback _ a) as [[[] a']|].
Qed.

Lemma StronglySorted_filter {B} (R : relation B) (P : B → Prop)
    `{∀ x, Decision (P x)} (l : list B) :
  StronglySorted R l → StronglySorted R (filter P l).
Proof.
  induction 1 as [|x l Hl IH Hall]; [constructor|].
  destruct (decide (P x)).
  - rewrite filter_cons_True by done. constructor; [done|].
    apply Forall_forall. intros y [_ Hy]%list_elem_of_filter.
    rewrite Forall_forall in Hall. by apply Hall.
  - by rewrite filter_cons_False.
Qed.

Lemma sorted_lt_NoDup (es : list (list byte * list byte)) :
  StronglySorted key_lt es → NoDup es.*1.
Proof.
  induction 1 as [|kv es Hes IH Hall]; [constructor|].
  cbn. constructor; [|done].
  intros (kv' & Heq & Hin)%list_elem_of_fmap.
  rewrite Forall_forall in Hall. specialize (Hall kv' Hin).
  unfold key_lt in Hall. rewrite Heq, Less_irrefl in Hall. done.
Qed.

Lemma calls_recorder (hits : list (list byte * list byte))
    (log : list (slice * slice)) :
  calls recorder hits log
  = Done ((), log ++ ((λ kv, (Some kv.1, Some kv.2)) <$> hits)).
Proof.
  revert log. induction hits as [|[k v] hits IH]; intros log; cbn.
  { by rewrite app_nil_r. }
  unfold bind, recorder at 1. rewrite IH. by rewrite <- app_assoc.
Qed.

(** C8: on an existing bucket, [Seek] invokes the callback on a list
    [hits] of key-value pairs and on nothing else, one call after the
    other in the order of the list, where [hits] holds exactly the pairs
    of the bucket whose key has the prefix, each key once, in strictly
    ascending key order.  (A callback that panics ends the scan with that
    panic.)  With the recording callback the calls observed are exactly
    [hits].  The store is left unchanged. *)
Theorem Seek_visits_prefix_keys {A : Type} (d : bolt.DB) (bucket : list byte)
    (m : gmap (list byte) (list byte)) (prefix : string)
    (callback : slice → slice → Run A ()) (a : A) :
  bolt.buckets d !! bucket = Some m →
  ∃ hits d',
    (∀ k v, (k, v) ∈ hits
            ↔ m !! k = Some v
              ∧ bytes.HasPrefix k (list_byte_of_string prefix) = true)
    ∧ StronglySorted key_lt hits
    ∧ NoDup hits.*1
    ∧ Seek bucket prefix callback a d
      = match calls callback hits a with
        | Panics => Panics
        | Done (_, a') => Done ((a', None), d')
        end
    ∧ Seek bucket prefix recorder [] d
      = Done (((λ kv, (Some kv.1, Some kv.2)) <$> hits, None), d')
    ∧ bolt.buckets d' = bolt.buckets d.
Proof.
  intros Hb.
  exists (filter (hasPrefix (list_byte_of_string prefix)) (bolt.entries m)).
  eexists.
  assert (StronglySorted key_lt
            (filter (hasPrefix (list_byte_of_string prefix)) (bolt.entries m)))
    as Hsorted by apply StronglySorted_filter, entries_sorted.
  split; [|split; [done|split; [by apply sorted_lt_NoDup|]]].
  { intros k v. rewrite list_elem_of_filter, elem_of_entries.
    unfold hasPrefix. cbn. tauto. }
  split; [apply (Seek_run d bucket m prefix callback a Hb)|].
  split; [|reflexivity].
  rewrite (Seek_run d bucket m prefix recorder [] Hb), calls_recorder.
  reflexivity.
Qed.

Lemma Seek_visits_prefix_keys_witness :
  ∃ hits d',
    (∀ k v, (k, v) ∈ hits
            ↔ exUsers !! k = Some v
              ∧ bytes.HasPrefix k (list_byte_of_string "user.") = true)
    ∧ StronglySorted key_lt hits
    ∧ NoDup hits.*1
    ∧ Seek exBucket "user." recorder [] (exStore exUsers)
      = match calls recorder hits [] with
        | Panics => Panics
        | Done (_, a') => Done ((a', None), d')
        end
    ∧ Seek exBucket "user." recorder [] (exStore exUsers)
      = Done (((λ kv, (Some kv.1, Some kv.2)) <$> hits, None), d')
    ∧ bolt.buckets d' = bolt.buckets (exStore exUsers).
Proof.
  apply (Seek_visits_prefix_keys (exStore exUsers) exBucket exUsers "user."
           recorder []).
  vm_compute. reflexivity.
Defined.

(** The scenario of the specification: over the keys ["user.1"],
    ["user.2"] and ["admin.1"], a scan for ["user."] calls back for
    ["user.1"] and then for ["user.2"], and not for ["admin.1"]. *)
Example Seek_scenario :
  ∃ d', Seek exBucket "user." recorder [] (exStore exUsers)
        = Done (([(slice_of_string "user.1", slice_of_string "a");
                  (slice_of_string "user.2", slice_of_string "b")], None), d').
Proof. eexists. vm_compute. reflexivity. Qed.

(** ** The sweep *)

Lemma expiryOf_spec (v : list byte) :
  ∃ payload, ParseCacheItem (Some v) = Done (expiryOf v, payload).
Proof.
  unfold expiryOf. destruct (ParseCacheItem_total v) as (e & p & ->).
  by exists p.
Qed.

Lemma lookup_sweep (now : Z) (m : gmap (list byte) (list byte)) (k : list byte) :
  sweep now m !! k
  = match m !! k with
    | Some v => if stale now (expiryOf v) then None else Some v
    | None => None
    end.
Proof.
  unfold sweep. destruct (m !! k) as [v|] eqn:Hk.
  - destruct (stale now (expiryOf v)) eqn:Hs.
    + apply map_lookup_filter_None. right. intros v' Hv' Hns.
      rewrite Hk in Hv'. injection Hv' as <-. by apply Hns.
    + apply map_lookup_filter_Some. split; [done|].
      unfold staleEntry. cbn. congruence.
  - apply map_lookup_filter_None. by left.
Qed.

Lemma elem_of_staleKeys (now : Z) (m : gmap (list byte) (list byte))
    (k : list byte) :
  k ∈ staleKeys now m ↔ ∃ v, m !! k = Some v ∧ stale now (expiryOf v) = true.
Proof.
  unfold staleKeys. rewrite list_elem_of_fmap. split.
  - intros ([k' v] & -> & [Hs Hin]%list_elem_of_filter).
    apply elem_of_entries in Hin. by exists v.
  - intros (v & Hk & Hs). exists (k, v). split; [done|].
    apply list_elem_of_filter. split; [done|by apply elem_of_entries].
Qed.

Lemma deleteAll_staleKeys (now : Z) (m : gmap (list byte) (list byte)) :
  deleteAll (staleKeys now m) m = sweep now m.
Proof.
  apply map_eq. intros k. rewrite lookup_deleteAll, lookup_sweep.
  case_decide as Hin.
  - apply elem_of_staleKeys in Hin as (v & -> & ->). done.
  - destruct (m !! k) as [v|] eqn:Hk; [|done].
    destruct (stale now (expiryOf v)) eqn:Hs; [|done].
    exfalso. apply Hin, elem_of_staleKeys. by exists v.
Qed.

Lemma sweep_clean (now : Z) (m : gmap (list byte) (list byte)) :
  staleKeys now m = [] → sweep now m = m.
Proof. intros H. by rewrite <- deleteAll_staleKeys, H. Qed.

Lemma staleKeys_sweep (now : Z) (m : gmap (list byte) (list byte)) :
  staleKeys now (sweep now m) = [].
Proof.
  destruct (staleKeys now (sweep now m)) as [|k ks] eqn:Hks; [done|].
  assert (k ∈ staleKeys now (sweep now m)) as Hin by (rewrite Hks; left).
  apply elem_of_staleKeys in Hin as (v & Hk & Hs).
  rewrite lookup_sweep in Hk. destruct (m !! k) as [v'|]; [|done].
  destruct (stale now (expiryOf v')) eqn:Hs'; [done|]. congruence.
Qed.

Lemma sweep_idempotent (now : Z) (m : gmap (list byte) (list byte)) :
  sweep now (sweep now m) = sweep now m.
Proof. apply sweep_clean, staleKeys_sweep. Qed.

(** The scan of [CacheCleanup] collects the stale keys. *)
Lemma forEachLoop_cleanup (now : Z) (es : list (list byte * list byte))
    (toRemove : list string) :
  bolt.forEachLoop es (cleanupCallback now) toRemove
  = Done (None,
          toRemove
          ++ (string_of_list_byte <$> (filter (staleEntry now) es).*1)).
Proof.
  revert toRemove. induction es as [|[k v] es IH]; intros toRemove.
  { cbn. by rewrite app_nil_r. }
  cbn [bolt.forEachLoop]. unfold bind at 1, cleanupCallback at 1.
  destruct (expiryOf_spec v) as [payload ->].
  destruct (stale now (expiryOf v)) eqn:Hs.
  - rewrite IH, filter_cons_True by done.
    cbn. by rewrite <- app_assoc.
  - rewrite IH, filter_cons_False; [done|].
    unfold staleEntry. cbn. congruence.
Qed.

Lemma BucketExists_run (d : bolt.DB) (bucket : list byte) :
  BucketExists bucket d
  = Done (bool_decide (is_Some (bolt.buckets d !! bucket)),
          bolt.mkDB (bolt.buckets d) (bolt.journal d ++ [existsTx])).
Proof.
  unfold BucketExists. run_tx.
  destruct (bolt.buckets d !! bucket) eqn:Hb.
  - rewrite bool_decide_eq_true_2 by done.
    by rewrite bool_decide_eq_true_2 by done.
  - rewrite bool_decide_eq_false_2 by (intros H; by apply H).
    rewrite bool_decide_eq_false_2; [done|]. by intros [? ?].
Qed.

Lemma ForEach_cleanup_run (now : Z) (d : bolt.DB) (bucket : list byte)
    (m : gmap (list byte) (list byte)) :
  bolt.buckets d !! bucket = Some m →
  ForEach bucket (cleanupCallback now) [] d
  = Done ((string_of_list_byte <$> staleKeys now m, None),
          bolt.mkDB (bolt.buckets d) (bolt.journal d ++ [scanTx bucket])).
Proof.
  intros Hb. unfold ForEach. run_in Hb.
  by rewrite forEachLoop_cleanup.
Qed.

Lemma fmap_bytes_string (ks : list (list byte)) :
  list_byte_of_string <$> (string_of_list_byte <$> ks) = ks.
Proof.
  rewrite <- list_fmap_compose. rewrite <- (list_fmap_id ks) at 2.
  apply list_fmap_ext. intros _ k _. apply list_byte_of_string_of_list_byte.
Qed.

(** One turn of the loop of [CacheCleanup]. *)
Lemma cleanupBucket_run (now : Z) (bucket : list byte) (d : bolt.DB) :
  cleanupBucket now bucket d
  = Done ((), bolt.mkDB (sweepBucket now bucket (bolt.buckets d))
                (bolt.journal d ++ cleanupJournal now bucket (bolt.buckets d))).
Proof.
  unfold cleanupBucket, bind at 1. rewrite BucketExists_run.
  unfold sweepBucket, cleanupJournal.
  destruct (bolt.buckets d !! bucket) as [m|] eqn:Hb.
  - rewrite bool_decide_eq_true_2 by done. cbn [negb].
    set (d1 := bolt.mkDB _ _).
    unfold bind at 1.
    rewrite (ForEach_cleanup_run now d1 bucket m Hb).
    destruct (staleKeys now m) as [|k ks] eqn:Hks.
    + cbn. rewrite sweep_clean by done.
      rewrite insert_id by done. unfold ret. by rewrite <- app_assoc.
    + cbn [fmap list_fmap length Nat.ltb Nat.leb].
      set (d2 := bolt.mkDB _ _). unfold bind at 1.
      rewrite (BatchDelete_run d2 bucket m _ Hb).
      change (string_of_list_byte k :: (string_of_list_byte <$> ks))
        with (string_of_list_byte <$> (k :: ks)).
      rewrite list_fmap_compose, fmap_bytes_string, <- Hks.
      rewrite deleteAll_staleKeys. unfold ret, batchTx.
      subst d1 d2. cbn [bolt.buckets bolt.journal].
      by rewrite <- !app_assoc.
  - rewrite bool_decide_eq_false_2 by (by intros [? ?]). done.
Qed.

Lemma CacheCleanup_run (now : Z) (CacheBuckets : list (list byte))
    (d : bolt.DB) :
  CacheCleanup now CacheBuckets d
  = Done ((), bolt.mkDB (sweepAll now CacheBuckets (bolt.buckets d))
                (bolt.journal d
                 ++ sweepJournal now CacheBuckets (bolt.buckets d))).
Proof.
  revert d. induction CacheBuckets as [|bucket rest IH]; intros d.
  { cbn. rewrite app_nil_r. by destruct d. }
  cbn [CacheCleanup]. unfold bind. rewrite cleanupBucket_run, IH.
  cbn [bolt.buckets bolt.journal sweepAll sweepJournal foldl].
  by rewrite <- app_assoc.
Qed.

Lemma lookup_sweepBucket (now : Z) (b X : list byte)
    (s : gmap (list byte) (gmap (list byte) (list byte))) :
  sweepBucket now b s !! X
  = if decide (X = b) then sweep now <$> s !! X else s !! X.
Proof.
  unfold sweepBucket. case_decide as HX.
  - subst X. destruct (s !! b) as [m|] eqn:Hb.
    + by rewrite lookup_insert_eq.
    + by rewrite Hb.
  - destruct (s !! b); [|done]. by rewrite lookup_insert_ne.
Qed.

Lemma lookup_sweepAll (now : Z) (CacheBuckets : list (list byte)) (X : list byte)
    (s : gmap (list byte) (gmap (list byte) (list byte))) :
  sweepAll now CacheBuckets s !! X
  = if decide (X ∈ CacheBuckets) then sweep now <$> s !! X else s !! X.
Proof.
  unfold sweepAll. revert s.
  induction CacheBuckets as [|b rest IH]; intros s; cbn [foldl].
  { case_decide as H; [by apply elem_of_nil in H|done]. }
  rewrite IH, lookup_sweepBucket.
  destruct (decide (X = b)) as [->|Hne].
  - rewrite (decide_True (P := b ∈ b :: rest)) by left.
    case_decide; [|done].
    destruct (s !! b) as [m|]; [|done]. cbn. by rewrite sweep_idempotent.
  - case_decide as H1; case_decide as H2; try done.
    + exfalso. apply H2. by right.
    + apply elem_of_cons in H2 as [?|?]; congruence.
Qed.

(** In the journal of one turn of the loop, the only transaction that
    deletes anything is the batch, it comes right after the scan, and it
    deletes the stale keys of the bucket of that turn. *)
Lemma cleanupJournal_deletes (now : Z) (b X : list byte)
    (s : gmap (list byte) (gmap (list byte) (list byte)))
    (i : nat) (t : bolt.TxRecord) :
  cleanupJournal now b s !! i = Some t → deletesFrom X t →
  X = b
  ∧ ∃ m, s !! b = Some m
         ∧ t = batchTx b (staleKeys now m)
         ∧ i = 2%nat
         ∧ cleanupJournal now b s !! 1%nat = Some (scanTx b).
Proof.
  unfold cleanupJournal. intros Hi [k Hk].
  destruct (s !! b) as [m|] eqn:Hb.
  - destruct i as [|[|i]]; cbn in Hi.
    { injection Hi as <-. cbn in Hk. by apply elem_of_nil in Hk. }
    { injection Hi as <-. cbn in Hk.
      apply list_elem_of_singleton in Hk. done. }
    destruct (staleKeys now m) as [|k' ks] eqn:Hks; [done|].
    destruct i; [|done]. cbn in Hi. injection Hi as <-.
    unfold batchTx in Hk. cbn [bolt.ops] in Hk.
    apply list_elem_of_fmap in Hk as (k'' & [= -> ->] & _).
    split; [done|]. exists m. by rewrite Hks.
  - destruct i; [|done]. cbn in Hi. injection Hi as <-.
    cbn in Hk. by apply elem_of_nil in Hk.
Qed.

(** A bucket without stale entries sees no deletion during a sweep. *)
Lemma sweepJournal_clean (now : Z) (X : list byte)
    (CacheBuckets : list (list byte))
    (s : gmap (list byte) (gmap (list byte) (list byte)))
    (i : nat) (t : bolt.TxRecord) :
  (∀ m, s !! X = Some m → staleKeys now m = []) →
  sweepJournal now CacheBuckets s !! i = Some t → ¬ deletesFrom X t.
Proof.
  revert s i. induction CacheBuckets as [|b rest IH]; intros s i Hclean Hi Hdel;
    [done|].
  cbn [sweepJournal] in Hi. apply lookup_app_Some in Hi as [Hi|[_ Hi]].
  - destruct (cleanupJournal_deletes now b X s i t Hi Hdel)
      as (-> & m & Hb & -> & _ & _).
    destruct Hdel as [k Hk]. unfold batchTx in Hk. cbn [bolt.ops] in Hk.
    rewrite (Hclean m Hb) in Hk. by apply elem_of_nil in Hk.
  - eapply (IH (sweepBucket now b s)); [|exact Hi|done].
    intros m. rewrite lookup_sweepBucket. case_decide as HX.
    + destruct (s !! X) as [m'|]; [|done]. intros [= <-].
      apply staleKeys_sweep.
    + apply Hclean.
Qed.

(** During a sweep, every transaction that deletes from a bucket is the
    batch of the stale keys the bucket had at the start, and the
    transaction just before it is the full scan of that bucket. *)
Lemma sweepJournal_deletes (now : Z) (X : list byte)
    (m0 : gmap (list byte) (list byte)) (CacheBuckets : list (list byte))
    (s : gmap (list byte) (gmap (list byte) (list byte)))
    (i : nat) (t : bolt.TxRecord) :
  s !! X = Some m0 →
  sweepJournal now CacheBuckets s !! i = Some t → deletesFrom X t →
  t = batchTx X (staleKeys now m0)
  ∧ ∃ j, i = S j ∧ sweepJournal now CacheBuckets s !! j = Some (scanTx X).
Proof.
  revert s i. induction CacheBuckets as [|b rest IH]; intros s i HX Hi Hdel;
    [done|].
  cbn [sweepJournal] in *. apply lookup_app_Some in Hi as [Hi|[Hlen Hi]].
  - destruct (cleanupJournal_deletes now b X s i t Hi Hdel)
      as (-> & m & Hb & -> & -> & Hscan).
    rewrite HX in Hb. injection Hb as <-. split; [done|].
    exists 1%nat. split; [done|]. by apply lookup_app_l_Some.
  - destruct (decide (X = b)) as [->|Hne].
    + exfalso.
      eapply (sweepJournal_clean now b rest (sweepBucket now b s));
        [|exact Hi|done].
      intros m. rewrite lookup_sweepBucket, decide_True, HX by done.
      intros [= <-]. apply staleKeys_sweep.
    + destruct (IH (sweepBucket now b s) (i - length (cleanupJournal now b s))%nat)
        as (-> & j & Hj & Hscan); [|done|done|].
      { by rewrite lookup_sweepBucket, decide_False. }
      split; [done|].
      exists (length (cleanupJournal now b s) + j)%nat. split; [lia|].
      rewrite lookup_app_r by lia.
      by replace (length (cleanupJournal now b s) + j
                  - length (cleanupJournal now b s))%nat with j by lia.
Qed.

(** During a sweep at most one transaction deletes from a given bucket. *)
Lemma sweepJournal_single (now : Z) (X : list byte)
    (CacheBuckets : list (list byte))
    (s : gmap (list byte) (gmap (list byte) (list byte)))
    (i j : nat) (t t' : bolt.TxRecord) :
  sweepJournal now CacheBuckets s !! i = Some t →
  sweepJournal now CacheBuckets s !! j = Some t' →
  deletesFrom X t → deletesFrom X t' → i = j.
Proof.
  revert s i j.
  induction CacheBuckets as [|b rest IH]; intros s i j Hi Hj Hdel Hdel'; [done|].
  cbn [sweepJournal] in *.
  assert (X = b → ∀ n u, sweepJournal now rest (sweepBucket now b s) !! n = Some u
                          → ¬ deletesFrom X u) as Hrest.
  { intros -> n u. apply sweepJournal_clean.
    intros m. rewrite lookup_sweepBucket, decide_True by done.
    destruct (s !! b); [|done]. intros [= <-]. apply staleKeys_sweep. }
  apply lookup_app_Some in Hi as [Hi|[Hleni Hi]];
    apply lookup_app_Some in Hj as [Hj|[Hlenj Hj]].
  - destruct (cleanupJournal_deletes now b X s i t Hi Hdel)
      as (_ & _ & _ & _ & -> & _).
    destruct (cleanupJournal_deletes now b X s j t' Hj Hdel')
      as (_ & _ & _ & _ & -> & _). done.
  - destruct (cleanupJournal_deletes now b X s i t Hi Hdel) as (HX & _).
    exfalso. by apply (Hrest HX _ _ Hj).
  - destruct (cleanupJournal_deletes now b X s j t' Hj Hdel') as (HX & _).
    exfalso. by apply (Hrest HX _ _ Hi).
  - pose proof (IH _ _ _ Hi Hj Hdel Hdel'). lia.
Qed.

Lemma stale_threeKinds (now expire : Z) :
  threeKinds now expire →
  stale now expire = bool_decide (expire = 0 ∨ expire < now).
Proof.
  unfold threeKinds, stale. intros H.
  destruct (Z.ltb_spec 0 expire), (Z.ltb_spec expire now),
    (Z.eqb_spec expire 0); cbn; try lia;
    (rewrite bool_decide_eq_true_2 by lia)
    || (rewrite bool_decide_eq_false_2 by lia);
    done.
Qed.

(** C5: let every record of the cache buckets be expired
    ([0 < expiry < now]), zero-expiry, or not yet expired.  Then one run of
    [CacheCleanup] returns, and in every existing cache bucket it removes
    exactly the keys whose decoded expiry is 0 or below [now] and leaves
    every other pair as it was; buckets that are not cache buckets are
    left as they were.  Of the transactions the run appends to the
    journal, one that deletes from a bucket is a single batch holding the
    deletions of all stale keys of that bucket, the transaction just
    before it is the completed [ForEach] scan of the bucket, and no other
    transaction of the run deletes from that bucket. *)
Theorem CacheCleanup_sweeps (now : Z) (CacheBuckets : list (list byte))
    (d : bolt.DB) :
  (∀ bucket m k v,
     bucket ∈ CacheBuckets → bolt.buckets d !! bucket = Some m →
     m !! k = Some v → threeKinds now (expiryOf v)) →
  ∃ d' new,
    CacheCleanup now CacheBuckets d = Done ((), d')
    ∧ bolt.journal d' = bolt.journal d ++ new
    ∧ (∀ bucket, bucket ∉ CacheBuckets →
                 bolt.buckets d' !! bucket = bolt.buckets d !! bucket)
    ∧ (∀ bucket, bolt.buckets d !! bucket = None →
                 bolt.buckets d' !! bucket = None)
    ∧ (∀ bucket m,
         bucket ∈ CacheBuckets → bolt.buckets d !! bucket = Some m →
         ∃ m',
           bolt.buckets d' !! bucket = Some m'
           ∧ (∀ k, m' !! k
                   = match m !! k with
                     | Some v =>
                         if bool_decide (expiryOf v = 0 ∨ expiryOf v < now)
                         then None else Some v
                     | None => None
                     end)
           ∧ (∀ k, k ∈ staleKeys now m
                   ↔ ∃ v, m !! k = Some v
                          ∧ (expiryOf v = 0 ∨ expiryOf v < now))
           ∧ (∀ i t, new !! i = Some t → deletesFrom bucket t →
                     t = batchTx bucket (staleKeys now m)
                     ∧ ∃ j, i = S j ∧ new !! j = Some (scanTx bucket))
           ∧ (∀ i j t t',
                new !! i = Some t → new !! j = Some t' →
                deletesFrom bucket t → deletesFrom bucket t' → i = j)).
Proof.
  intros Hkinds.
  exists (bolt.mkDB (sweepAll now CacheBuckets (bolt.buckets d))
            (bolt.journal d ++ sweepJournal now CacheBuckets (bolt.buckets d))).
  exists (sweepJournal now CacheBuckets (bolt.buckets d)).
  split; [apply CacheCleanup_run|]. split; [done|].
  cbn [bolt.buckets]. split; [|split].
  - intros bucket Hnotin. by rewrite lookup_sweepAll, decide_False.
  - intros bucket Hnone. rewrite lookup_sweepAll, Hnone. by case_decide.
  - intros bucket m Hin Hb. exists (sweep now m).
    split; [by rewrite lookup_sweepAll, decide_True, Hb|].
    split; [|split; [|split]].
    + intros k. rewrite lookup_sweep.
      destruct (m !! k) as [v|] eqn:Hk; [|done].
      by rewrite (stale_threeKinds now (expiryOf v)
                    (Hkinds bucket m k v Hin Hb Hk)).
    + intros k. rewrite elem_of_staleKeys.
      split; intros (v & Hk & Hs); exists v; (split; [done|]).
      * rewrite (stale_threeKinds now (expiryOf v)
                   (Hkinds bucket m k v Hin Hb Hk)) in Hs.
        by apply bool_decide_eq_true in Hs.
      * rewrite (stale_threeKinds now (expiryOf v)
                   (Hkinds bucket m k v Hin Hb Hk)).
        by apply bool_decide_eq_true.
    + intros i t. by apply sweepJournal_deletes.
    + intros i j t t'. apply sweepJournal_single.
Qed.

Lemma exMixed_kinds (k v : list byte) :
  exMixed !! k = Some v → threeKinds 1650000000 (expiryOf v).
Proof.
  intros Hk. apply elem_of_map_to_list in Hk.
  vm_compute map_to_list in Hk.
  repeat (apply elem_of_cons in Hk as [[= -> ->]|Hk]);
    [..|by apply elem_of_nil in Hk]; unfold threeKinds.
  all: match goal with
       | |- context [expiryOf ?v] =>
           let e := eval vm_compute in (expiryOf v) in
           change (expiryOf v) with e
       end; lia.
Qed.

Lemma CacheCleanup_sweeps_witness :
  ∃ d' new,
    CacheCleanup 1650000000 [exBucket] (exStore exMixed) = Done ((), d')
    ∧ bolt.journal d' = bolt.journal (exStore exMixed) ++ new
    ∧ (∀ bucket, bucket ∉ [exBucket] →
                 bolt.buckets d' !! bucket
                 = bolt.buckets (exStore exMixed) !! bucket)
    ∧ (∀ bucket, bolt.buckets (exStore exMixed) !! bucket = None →
                 bolt.buckets d' !! bucket = None)
    ∧ (∀ bucket m,
         bucket ∈ [exBucket] →
         bolt.buckets (exStore exMixed) !! bucket = Some m →
         ∃ m',
           bolt.buckets d' !! bucket = Some m'
           ∧ (∀ k, m' !! k
                   = match m !! k with
                     | Some v =>
                         if bool_decide (expiryOf v = 0
                                         ∨ expiryOf v < 1650000000)
                         then None else Some v
                     | None => None
                     end)
           ∧ (∀ k, k ∈ staleKeys 1650000000 m
                   ↔ ∃ v, m !! k = Some v
                          ∧ (expiryOf v = 0 ∨ expiryOf v < 1650000000))
           ∧ (∀ i t, new !! i = Some t → deletesFrom bucket t →
                     t = batchTx bucket (staleKeys 1650000000 m)
                     ∧ ∃ j, i = S j ∧ new !! j = Some (scanTx bucket))
           ∧ (∀ i j t t',
                new !! i = Some t → new !! j = Some t' →
                deletesFrom bucket t → deletesFrom bucket t' → i = j)).
Proof.
  apply (CacheCleanup_sweeps 1650000000 [exBucket] (exStore exMixed)).
  intros bucket m k v Hin Hb Hk.
  apply list_elem_of_singleton in Hin. subst bucket.
  assert (bolt.buckets (exStore exMixed) !! exBucket = Some exMixed) as Hb'
    by (vm_compute; reflexivity).
  rewrite Hb' in Hb. injection Hb as <-.
  exact (exMixed_kinds k v Hk).
Defined.

(** The sweep on the mixed bucket at time 1650000000: the expired and the
    zero-expiry record go, the other stays; the journal shows the scan and
    then one batch with both deletions. *)
Example CacheCleanup_scenario :
  ∃ d', CacheCleanup 1650000000 [exBucket] (exStore exMixed) = Done ((), d')
        ∧ bolt.buckets d' !! exBucket
          = Some {[ list_byte_of_string "new" := list_byte_of_string "1700000000|z" ]}
        ∧ bolt.journal d'
          = [existsTx; scanTx exBucket;
             batchTx exBucket [list_byte_of_string "old"; list_byte_of_string "zero"]].
Proof. eexists. split; [|split]; vm_compute; reflexivity. Qed.

(** * Further properties of the package *)

(** ** The example stores *)

Lemma exStore_bucket (m : gmap (list byte) (list byte)) :
  bolt.buckets (exStore m) !! exBucket = Some m.
Proof. apply lookup_singleton_eq. Qed.

Lemma exStore_other (m : gmap (list byte) (list byte)) (bucket : list byte) :
  bucket ≠ exBucket → bolt.buckets (exStore m) !! bucket = None.
Proof. intros H. by apply lookup_singleton_ne. Qed.

Ltac distinct_keys :=
  let H := fresh in intros H; vm_compute in H; discriminate H.

Lemma exUsers_no_empty_key : exUsers !! [] = None.
Proof.
  unfold exUsers.
  rewrite !lookup_insert_ne by distinct_keys.
  apply lookup_singleton_ne. distinct_keys.
Qed.

(** ** Bucket lifecycle *)

Lemma CheckBucket_run (d : bolt.DB) (bucket : list byte) :
  bucket ≠ [] →
  CheckBucket bucket d
  = Done (None,
          bolt.mkDB (match bolt.buckets d !! bucket with
                     | Some _ => bolt.buckets d
                     | None => <[bucket := ∅]> (bolt.buckets d)
                     end)
            (bolt.journal d ++ [bolt.mkTxRecord bolt.ReadWrite [] true])).
Proof.
  intros Hne. unfold CheckBucket, bolt.Tx_CreateBucketIfNotExists. run_tx.
  destruct bucket as [|c bucket]; [done|]. cbn [length Nat.eqb].
  by destruct (bolt.buckets d !! (c :: bucket)).
Qed.

(** X1: [CheckBucket] with a non-empty name returns nil and leaves the
    bucket in existence -- with the contents it had, or empty when it is
    new -- and every other bucket as it was; a second call changes
    nothing. *)
Theorem CheckBucket_idempotent (d : bolt.DB) (bucket : list byte) :
  bucket ≠ [] →
  ∃ d1 d2,
    CheckBucket bucket d = Done (None, d1)
    ∧ bolt.buckets d1 !! bucket = Some (default ∅ (bolt.buckets d !! bucket))
    ∧ (∀ other, other ≠ bucket →
                bolt.buckets d1 !! other = bolt.buckets d !! other)
    ∧ CheckBucket bucket d1 = Done (None, d2)
    ∧ bolt.buckets d2 = bolt.buckets d1.
Proof.
  intros Hne. pose proof (CheckBucket_run d bucket Hne) as H1.
  set (d1 := bolt.mkDB _ _) in H1.
  pose proof (CheckBucket_run d1 bucket Hne) as H2.
  set (d2 := bolt.mkDB _ _) in H2.
  assert (bolt.buckets d1 !! bucket
          = Some (default ∅ (bolt.buckets d !! bucket))) as Hb1.
  { subst d1. cbn [bolt.buckets].
    destruct (bolt.buckets d !! bucket) eqn:Hb; [done|].
    apply lookup_insert_eq. }
  exists d1, d2. split; [done|]. split; [done|]. split; [|split; [done|]].
  - intros other Hother. subst d1. cbn [bolt.buckets].
    destruct (bolt.buckets d !! bucket); [done|].
    by rewrite lookup_insert_ne.
  - subst d2. cbn [bolt.buckets]. by rewrite Hb1.
Qed.

Lemma CheckBucket_idempotent_witness :
  ∃ d1 d2,
    CheckBucket (list_byte_of_string "history") (exStore exUsers)
    = Done (None, d1)
    ∧ bolt.buckets d1 !! list_byte_of_string "history"
      = Some (default ∅ (bolt.buckets (exStore exUsers)
                           !! list_byte_of_string "history"))
    ∧ (∀ other, other ≠ list_byte_of_string "history" →
                bolt.buckets d1 !! other
                = bolt.buckets (exStore exUsers) !! other)
    ∧ CheckBucket (list_byte_of_string "history") d1 = Done (None, d2)
    ∧ bolt.buckets d2 = bolt.buckets d1.
Proof.
  apply (CheckBucket_idempotent (exStore exUsers)
           (list_byte_of_string "history")).
  discriminate.
Defined.

Lemma RecreateBucket_run (d : bolt.DB) (bucket : list byte) :
  bucket ≠ [] →
  RecreateBucket bucket d
  = match bolt.buckets d !! bucket with
    | Some _ =>
        Done (None,
              bolt.mkDB (<[bucket := ∅]> (bolt.buckets d))
                (bolt.journal d ++ [bolt.mkTxRecord bolt.ReadWrite [] true]))
    | None =>
        Done (bolt.ErrBucketNotFound,
              bolt.mkDB (bolt.buckets d)
                (bolt.journal d ++ [bolt.mkTxRecord bolt.ReadWrite [] false]))
    end.
Proof.
  intros Hne.
  unfold RecreateBucket, bolt.Tx_DeleteBucket, bolt.Tx_CreateBucketIfNotExists.
  run_tx. destruct (bolt.buckets d !! bucket) eqn:Hb; [|done].
  cbn [bolt.root bolt.writable bolt.trace negb].
  destruct bucket as [|c bucket]; [done|]. cbn [length Nat.eqb].
  rewrite lookup_delete_eq. cbn [bolt.root bolt.writable bolt.trace].
  by rewrite insert_delete_eq.
Qed.

Lemma ForEach_run {A : Type} (d : bolt.DB) (bucket : list byte)
    (m : gmap (list byte) (list byte))
    (callback : slice → slice → Run A error) (a : A) :
  bolt.buckets d !! bucket = Some m →
  ForEach bucket callback a d
  = match bolt.forEachLoop (bolt.entries m) callback a with
    | Panics => Panics
    | Done (_, a') =>
        Done ((a', None),
              bolt.mkDB (bolt.buckets d) (bolt.journal d ++ [scanTx bucket]))
    end.
Proof.
  intros Hb. unfold ForEach. run_in Hb.
  by destruct (bolt.forEachLoop _ callback a) as [[? ?]|].
Qed.

Lemma forEachLoop_recordAll (es : list (list byte * list byte))
    (log : list (slice * slice)) :
  bolt.forEachLoop es recordAll log = Done (None, log ++ asArgs es).
Proof.
  revert log. induction es as [|[k v] es IH]; intros log; cbn.
  { by rewrite app_nil_r. }
  unfold bind, recordAll at 1. rewrite IH.
  unfold asArgs. cbn. by rewrite <- app_assoc.
Qed.

(** X2: [RecreateBucket] on an existing bucket with a non-empty name
    returns nil and leaves that bucket empty and every other bucket as it
    was; a following [ForEach] over the bucket calls back for nothing. *)
Theorem RecreateBucket_empties (d : bolt.DB) (bucket : list byte)
    (m : gmap (list byte) (list byte)) :
  bolt.buckets d !! bucket = Some m → bucket ≠ [] →
  ∃ d1 d2,
    RecreateBucket bucket d = Done (None, d1)
    ∧ bolt.buckets d1 = <[bucket := ∅]> (bolt.buckets d)
    ∧ ForEach bucket recordAll [] d1 = Done (([], None), d2).
Proof.
  intros Hb Hne. pose proof (RecreateBucket_run d bucket Hne) as H1.
  rewrite Hb in H1. set (d1 := bolt.mkDB _ _) in H1.
  assert (bolt.buckets d1 !! bucket = Some ∅) as Hb1 by apply lookup_insert_eq.
  exists d1. eexists. split; [done|]. split; [done|].
  rewrite (ForEach_run d1 bucket ∅ recordAll [] Hb1).
  rewrite forEachLoop_recordAll.
  unfold bolt.entries. rewrite map_to_list_empty. reflexivity.
Qed.

Lemma RecreateBucket_empties_witness :
  ∃ d1 d2,
    RecreateBucket exBucket (exStore exUsers) = Done (None, d1)
    ∧ bolt.buckets d1 = <[exBucket := ∅]> (bolt.buckets (exStore exUsers))
    ∧ ForEach exBucket recordAll [] d1 = Done (([], None), d2).
Proof.
  apply (RecreateBucket_empties (exStore exUsers) exBucket exUsers);
    [apply exStore_bucket | discriminate].
Defined.



(** ** Scans *)

(** X4: on an existing bucket, [ForEach] runs the callback over the pairs
    of the bucket, each key once, in strictly ascending key order, up to
    the first call that returns an error; whatever the callback returned,
    [ForEach] itself returns a nil error.  With a callback that records
    its arguments and never fails, the record is the whole bucket.  The
    store is left unchanged. *)
Theorem ForEach_visits_all {A : Type} (d : bolt.DB) (bucket : list byte)
    (m : gmap (list byte) (list byte))
    (callback : slice → slice → Run A error) (a : A) :
  bolt.buckets d !! bucket = Some m →
  ∃ es d',
    (∀ k v, (k, v) ∈ es ↔ m !! k = Some v)
    ∧ StronglySorted key_lt es
    ∧ NoDup es.*1
    ∧ ForEach bucket callback a d
      = match bolt.forEachLoop es callback a with
        | Panics => Panics
        | Done (_, a') => Done ((a', None), d')
        end
    ∧ ForEach bucket recordAll [] d = Done ((asArgs es, None), d')
    ∧ bolt.buckets d' = bolt.buckets d.
Proof.
  intros Hb. exists (bolt.entries m). eexists.
  split; [intros k v; apply elem_of_entries|].
  split; [apply entries_sorted|].
  split; [apply NoDup_entries_keys|].
  split; [apply (ForEach_run d bucket m callback a Hb)|].
  split; [|reflexivity].
  by rewrite (ForEach_run d bucket m recordAll [] Hb), forEachLoop_recordAll.
Qed.

Lemma ForEach_visits_all_witness :
  ∃ es d',
    (∀ k v, (k, v) ∈ es ↔ exUsers !! k = Some v)
    ∧ StronglySorted key_lt es
    ∧ NoDup es.*1
    ∧ ForEach exBucket recordAll [] (exStore exUsers)
      = match bolt.forEachLoop es recordAll [] with
        | Panics => Panics
        | Done (_, a') => Done ((a', None), d')
        end
    ∧ ForEach exBucket recordAll [] (exStore exUsers)
      = Done ((asArgs es, None), d')
    ∧ bolt.buckets d' = bolt.buckets (exStore exUsers).
Proof.
  apply (ForEach_visits_all (exStore exUsers) exBucket exUsers recordAll []).
  apply exStore_bucket.
Defined.

Lemma HasPrefix_nil (k : list byte) : bytes.HasPrefix k [] = true.
Proof. by destruct k. Qed.

Lemma filter_all {B} (P : B → Prop) `{∀ x, Decision (P x)} (l : list B) :
  Forall P l → filter P l = l.
Proof.
  induction 1 as [|x l Hx _ IH]; [done|].
  by rewrite filter_cons_True, IH.
Qed.

(** X5: with the empty prefix, [Seek] calls back for every pair of the
    bucket, in the order in which [ForEach] visits them. *)
Theorem Seek_empty_prefix (d : bolt.DB) (bucket : list byte)
    (m : gmap (list byte) (list byte)) :
  bolt.buckets d !! bucket = Some m →
  ∃ es d1 d2,
    (∀ k v, (k, v) ∈ es ↔ m !! k = Some v)
    ∧ Seek bucket "" recorder [] d = Done ((asArgs es, None), d1)
    ∧ ForEach bucket recordAll [] d = Done ((asArgs es, None), d2).
Proof.
  intros Hb. exists (bolt.entries m). eexists _, _.
  split; [intros k v; apply elem_of_entries|]. split.
  - rewrite (Seek_run d bucket m "" recorder [] Hb), calls_recorder.
    rewrite filter_all; [reflexivity|].
    apply Forall_forall. intros kv _. apply HasPrefix_nil.
  - by rewrite (ForEach_run d bucket m recordAll [] Hb), forEachLoop_recordAll.
Qed.

Lemma Seek_empty_prefix_witness :
  ∃ es d1 d2,
    (∀ k v, (k, v) ∈ es ↔ exUsers !! k = Some v)
    ∧ Seek exBucket "" recorder [] (exStore exUsers)
      = Done ((asArgs es, None), d1)
    ∧ ForEach exBucket recordAll [] (exStore exUsers)
      = Done ((asArgs es, None), d2).
Proof.
  apply (Seek_empty_prefix (exStore exUsers) exBucket exUsers).
  apply exStore_bucket.
Defined.

(** ** Deleting by prefix *)

Lemma forEachLoop_prefix (prefix : slice) (es : list (list byte * list byte))
    (toRemove : list string) :
  bolt.forEachLoop es (prefixCallback prefix) toRemove
  = Done (None,
          toRemove
          ++ (string_of_list_byte <$> (filter (hasPrefix (data prefix)) es).*1)).
Proof.
  revert toRemove. induction es as [|[k v] es IH]; intros toRemove.
  { cbn. by rewrite app_nil_r. }
  cbn [bolt.forEachLoop]. unfold bind at 1, prefixCallback at 1.
  change (data (Some k)) with k.
  destruct (bytes.HasPrefix k (data prefix)) eqn:Hp.
  - rewrite IH, filter_cons_True by done. cbn. by rewrite <- app_assoc.
  - rewrite IH, filter_cons_False; [done|].
    unfold hasPrefix. cbn. congruence.
Qed.

Lemma lookup_deleteAll_prefix (p : list byte)
    (m : gmap (list byte) (list byte)) (k : list byte) :
  deleteAll (filter (hasPrefix p) (bolt.entries m)).*1 m !! k
  = if bytes.HasPrefix k p then None else m !! k.
Proof.
  rewrite lookup_deleteAll. case_decide as Hin.
  - apply list_elem_of_fmap in Hin as ([k' v] & -> & [Hp _]%list_elem_of_filter).
    unfold hasPrefix in Hp. cbn in *. by rewrite Hp.
  - destruct (bytes.HasPrefix k p) eqn:Hp; [|done].
    destruct (m !! k) as [v|] eqn:Hk; [|done].
    exfalso. apply Hin. apply list_elem_of_fmap. exists (k, v).
    split; [done|]. apply list_elem_of_filter. split; [done|].
    by apply elem_of_entries.
Qed.

Lemma DeleteWithPrefix_run (d : bolt.DB) (bucket : list byte)
    (m : gmap (list byte) (list byte)) (prefix : slice) :
  bolt.buckets d !! bucket = Some m →
  let keys := (filter (hasPrefix (data prefix)) (bolt.entries m)).*1 in
  DeleteWithPrefix bucket prefix d
  = Done ((), bolt.mkDB (<[bucket := deleteAll keys m]> (bolt.buckets d))
                (bolt.journal d
                 ++ scanTx bucket
                    :: match keys with
                       | [] => []
                       | _ => [batchTx bucket keys]
                       end)).
Proof.
  intros Hb keys. unfold DeleteWithPrefix, bind at 1.
  rewrite (ForEach_run d bucket m (prefixCallback prefix) [] Hb).
  rewrite forEachLoop_prefix. cbn [app]. fold keys.
  destruct keys as [|k ks] eqn:Hks.
  - cbn. unfold ret. by rewrite insert_id.
  - cbn [fmap list_fmap length Nat.ltb Nat.leb].
    set (d1 := bolt.mkDB _ _). unfold bind at 1.
    rewrite (BatchDelete_run d1 bucket m _ Hb).
    change (string_of_list_byte k :: (string_of_list_byte <$> ks))
      with (string_of_list_byte <$> (k :: ks)).
    rewrite list_fmap_compose, fmap_bytes_string.
    unfold ret, batchTx. subst d1. cbn [bolt.buckets bolt.journal].
    by rewrite <- !app_assoc.
Qed.

(** X6: on an existing bucket, [DeleteWithPrefix] removes exactly the
    keys that have the prefix and leaves every other pair and every other
    bucket as they were (with an empty prefix it empties the bucket).
    It scans the whole bucket first and then issues the deletions as one
    batch, or no batch when no key has the prefix. *)
Theorem DeleteWithPrefix_removes (d : bolt.DB) (bucket : list byte)
    (m : gmap (list byte) (list byte)) (prefix : slice) :
  bolt.buckets d !! bucket = Some m →
  ∃ d' m' keys,
    DeleteWithPrefix bucket prefix d = Done ((), d')
    ∧ bolt.buckets d' = <[bucket := m']> (bolt.buckets d)
    ∧ (∀ k, m' !! k = if bytes.HasPrefix k (data prefix) then None else m !! k)
    ∧ (prefix = None ∨ prefix = Some [] → m' = ∅)
    ∧ (∀ k, k ∈ keys
            ↔ is_Some (m !! k) ∧ bytes.HasPrefix k (data prefix) = true)
    ∧ bolt.journal d'
      = bolt.journal d
        ++ scanTx bucket
           :: match keys with
              | [] => []
              | _ => [batchTx bucket keys]
              end.
Proof.
  intros Hb. pose proof (DeleteWithPrefix_run d bucket m prefix Hb) as Hrun.
  cbv zeta in Hrun.
  set (keys := (filter (hasPrefix (data prefix)) (bolt.entries m)).*1) in *.
  eexists _, (deleteAll keys m), keys.
  split; [exact Hrun|]. split; [reflexivity|].
  split; [intros k; apply lookup_deleteAll_prefix|].
  split; [|split; [|reflexivity]].
  - intros Hp. apply map_eq. intros k.
    subst keys. rewrite lookup_deleteAll_prefix, lookup_empty.
    destruct Hp as [-> | ->]; cbn; by rewrite HasPrefix_nil.
  - intros k. subst keys. rewrite list_elem_of_fmap. split.
    + intros ([k' v] & -> & [Hp Hin]%list_elem_of_filter).
      apply elem_of_entries in Hin. cbn. split; [by exists v|done].
    + intros [[v Hk] Hp]. exists (k, v). split; [done|].
      apply list_elem_of_filter. split; [done|by apply elem_of_entries].
Qed.

Lemma DeleteWithPrefix_removes_witness :
  ∃ d' m' keys,
    DeleteWithPrefix exBucket (slice_of_string "user.") (exStore exUsers)
    = Done ((), d')
    ∧ bolt.buckets d' = <[exBucket := m']> (bolt.buckets (exStore exUsers))
    ∧ (∀ k, m' !! k
            = if bytes.HasPrefix k (data (slice_of_string "user."))
              then None else exUsers !! k)
    ∧ (slice_of_string "user." = None ∨ slice_of_string "user." = Some [] →
       m' = ∅)
    ∧ (∀ k, k ∈ keys
            ↔ is_Some (exUsers !! k)
              ∧ bytes.HasPrefix k (data (slice_of_string "user.")) = true)
    ∧ bolt.journal d'
      = bolt.journal (exStore exUsers)
        ++ scanTx exBucket
           :: match keys with
              | [] => []
              | _ => [batchTx exBucket keys]
              end.
Proof.
  apply (DeleteWithPrefix_removes (exStore exUsers) exBucket exUsers
           (slice_of_string "user.")).
  apply exStore_bucket.
Defined.

(** ** Plain records: set, get, delete *)

Lemma put_run (d : bolt.DB) (bucket : list byte)
    (m : gmap (list byte) (list byte)) (key value : slice) :
  bolt.buckets d !! bucket = Some m →
  0 < len key → len key <= bolt.MaxKeySize → len value <= bolt.MaxValueSize →
  bolt.Update (let* b := bolt.Tx_Bucket bucket in
               let* err := bolt.Bucket_Put b key value in
               ret ((), err)) d
  = Done (((), None),
          bolt.mkDB (<[bucket := <[data key := data value]> m]> (bolt.buckets d))
            (bolt.journal d ++
             [bolt.mkTxRecord bolt.ReadWrite
                [bolt.OpPut bucket (data key) (data value)] true])).
Proof.
  intros Hb Hk0 Hk1 Hv. run_in Hb.
  destruct (Z.eqb_spec (len key) 0); [lia|].
  destruct (Z.ltb_spec bolt.MaxKeySize (len key)); [lia|].
  destruct (Z.ltb_spec bolt.MaxValueSize (len value)); [lia|].
  reflexivity.
Qed.

Lemma put_empty_key_run (d : bolt.DB) (bucket : list byte)
    (m : gmap (list byte) (list byte)) (key value : slice) :
  bolt.buckets d !! bucket = Some m →
  len key = 0 →
  bolt.Update (let* b := bolt.Tx_Bucket bucket in
               let* err := bolt.Bucket_Put b key value in
               ret ((), err)) d
  = Done (((), bolt.ErrKeyRequired),
          bolt.mkDB (bolt.buckets d)
            (bolt.journal d ++ [bolt.mkTxRecord bolt.ReadWrite [] false])).
Proof.
  intros Hb Hk. run_in Hb. by rewrite Hk.
Qed.

Lemma len_slice_of_string_pos (value : string) :
  0 < len (slice_of_string value) ↔ value ≠ ""%string.
Proof.
  unfold len, slice_of_string.
  destruct value as [|c value]; [cbn; split; [lia|done]|].
  split; [done|]. intros _.
  change (data (Some (list_byte_of_string (String c value))))
    with (Ascii.byte_of_ascii c :: list_byte_of_string value).
  cbn [length]. lia.
Qed.

(** X7: [Set] followed by [Get] gives the value back.  For an existing
    bucket and a key and value the engine accepts, [Set] returns nil and
    changes only that key; [Get] of the key then returns the value with a
    nil error, and [Has] is true exactly when the value is not empty. *)
Theorem Set_then_Get (d : bolt.DB) (bucket : list byte)
    (m : gmap (list byte) (list byte)) (key value : string) :
  bolt.buckets d !! bucket = Some m →
  0 < len (slice_of_string key) →
  len (slice_of_string key) <= bolt.MaxKeySize →
  len (slice_of_string value) <= bolt.MaxValueSize →
  ∃ d1 d2 d3 res,
    Set_ bucket key value d = Done (None, d1)
    ∧ bolt.buckets d1
      = <[bucket := <[list_byte_of_string key := list_byte_of_string value]> m]>
          (bolt.buckets d)
    ∧ Get bucket key d1 = Done ((value, None), d2)
    ∧ Has bucket key d1 = Done (res, d3)
    ∧ (res = true ↔ value ≠ ""%string).
Proof.
  intros Hb Hk0 Hk1 Hv.
  pose proof (put_run d bucket m (slice_of_string key) (slice_of_string value)
                Hb Hk0 Hk1 Hv) as Hput.
  set (d1 := bolt.mkDB _ _) in Hput.
  assert (bolt.buckets d1 !! bucket
          = Some (<[list_byte_of_string key := list_byte_of_string value]> m))
    as Hb1 by apply lookup_insert_eq.
  exists d1. eexists _, _, _. split.
  { unfold Set_, SetBytes, bind at 1. by rewrite Hput. }
  split; [reflexivity|]. split; [|split].
  - unfold Get, bind. rewrite (GetBytes_run d1 bucket _ Hb1 key).
    rewrite lookup_insert_eq. unfold ret.
    change (Some (list_byte_of_string value)) with (slice_of_string value).
    by rewrite slice_string_roundtrip.
  - rewrite (Has_run d1 bucket _ Hb1 key). reflexivity.
  - rewrite lookup_insert_eq.
    change (Some (list_byte_of_string value)) with (slice_of_string value).
    rewrite Z.ltb_lt. apply len_slice_of_string_pos.
Qed.

Lemma Set_then_Get_witness :
  ∃ d1 d2 d3 res,
    Set_ exBucket "k" "v" (exStore exUsers) = Done (None, d1)
    ∧ bolt.buckets d1
      = <[exBucket := <[list_byte_of_string "k" := list_byte_of_string "v"]>
                        exUsers]>
          (bolt.buckets (exStore exUsers))
    ∧ Get exBucket "k" d1 = Done (("v"%string, None), d2)
    ∧ Has exBucket "k" d1 = Done (res, d3)
    ∧ (res = true ↔ "v"%string ≠ ""%string).
Proof.
  apply (Set_then_Get (exStore exUsers) exBucket exUsers "k" "v");
    [apply exStore_bucket | reflexivity
    | vm_compute; congruence | vm_compute; congruence].
Defined.

(** X8: the empty key is rejected.  On an existing bucket, [Set] and
    [SetCached] with key [""] return the engine's "key required" error
    and store nothing; a following [Get] or [GetCached] of [""] returns
    the empty string with a nil error. *)
Theorem Set_empty_key_rejected (now seconds : Z) (d : bolt.DB)
    (bucket : list byte) (m : gmap (list byte) (list byte)) (value : string) :
  bolt.buckets d !! bucket = Some m →
  m !! [] = None →
  ∃ d1 d2 d3 d4,
    Set_ bucket "" value d = Done (errors.New "key required", d1)
    ∧ bolt.buckets d1 = bolt.buckets d
    ∧ SetCached now bucket seconds "" value d
      = Done (errors.New "key required", d2)
    ∧ bolt.buckets d2 = bolt.buckets d
    ∧ Get bucket "" d1 = Done ((""%string, None), d3)
    ∧ GetCached now bucket "" d2 = Done ((""%string, None), d4).
Proof.
  intros Hb Hnone.
  pose proof (put_empty_key_run d bucket m (slice_of_string "")
                (slice_of_string value) Hb eq_refl) as Hput.
  pose proof (put_empty_key_run d bucket m (slice_of_string "")
                (cacheItem now seconds (slice_of_string value)) Hb eq_refl)
    as Hput'.
  set (d1 := bolt.mkDB _ _) in *.
  exists d1, d1. eexists _, _. split.
  { unfold Set_, SetBytes, bind at 1. by rewrite Hput. }
  split; [reflexivity|]. split.
  { unfold SetCached, SetCachedBytes, bind at 1. by rewrite Hput'. }
  split; [reflexivity|]. split.
  - unfold Get, bind. rewrite (GetBytes_run d1 bucket m Hb "").
    change (list_byte_of_string "") with (@nil byte). by rewrite Hnone.
  - unfold GetCached, bind.
    rewrite (GetCachedBytes_miss now d1 bucket m "" Hb); [reflexivity|].
    by left.
Qed.

Lemma Set_empty_key_rejected_witness :
  ∃ d1 d2 d3 d4,
    Set_ exBucket "" "v" (exStore exUsers)
    = Done (errors.New "key required", d1)
    ∧ bolt.buckets d1 = bolt.buckets (exStore exUsers)
    ∧ SetCached 1700000000 exBucket 60 "" "v" (exStore exUsers)
      = Done (errors.New "key required", d2)
    ∧ bolt.buckets d2 = bolt.buckets (exStore exUsers)
    ∧ Get exBucket "" d1 = Done ((""%string, None), d3)
    ∧ GetCached 1700000000 exBucket "" d2 = Done ((""%string, None), d4).
Proof.
  apply (Set_empty_key_rejected 1700000000 60 (exStore exUsers) exBucket
           exUsers "v");
    [apply exStore_bucket | apply exUsers_no_empty_key].
Defined.

(** X9: [Delete] on an existing bucket returns nil and leaves the bucket
    without the key and every other pair as it was; afterwards [Has] is
    false and [Get] returns the empty string with a nil error.  Deleting a
    key that is absent is not an error and changes nothing. *)
Theorem Delete_removes (d : bolt.DB) (bucket : list byte)
    (m : gmap (list byte) (list byte)) (key : string) :
  bolt.buckets d !! bucket = Some m →
  ∃ d1 d2 d3,
    Delete bucket key d = Done (None, d1)
    ∧ bolt.buckets d1
      = <[bucket := delete (list_byte_of_string key) m]> (bolt.buckets d)
    ∧ Has bucket key d1 = Done (false, d2)
    ∧ Get bucket key d1 = Done ((""%string, None), d3)
    ∧ (m !! list_byte_of_string key = None → bolt.buckets d1 = bolt.buckets d).
Proof.
  intros Hb. pose proof (Delete_run d bucket m Hb key) as Hdel.
  set (d1 := bolt.mkDB _ _) in Hdel.
  assert (bolt.buckets d1 !! bucket
          = Some (delete (list_byte_of_string key) m)) as Hb1
    by apply lookup_insert_eq.
  exists d1. eexists _, _. split; [done|]. split; [reflexivity|].
  split; [|split].
  - rewrite (Has_run d1 bucket _ Hb1 key). by rewrite lookup_delete_eq.
  - unfold Get, bind. rewrite (GetBytes_run d1 bucket _ Hb1 key).
    by rewrite lookup_delete_eq.
  - intros Hnone. subst d1. cbn [bolt.buckets].
    rewrite delete_id by done. by apply insert_id.
Qed.

Lemma Delete_removes_witness :
  ∃ d1 d2 d3,
    Delete exBucket "user.1" (exStore exUsers) = Done (None, d1)
    ∧ bolt.buckets d1
      = <[exBucket := delete (list_byte_of_string "user.1") exUsers]>
          (bolt.buckets (exStore exUsers))
    ∧ Has exBucket "user.1" d1 = Done (false, d2)
    ∧ Get exBucket "user.1" d1 = Done ((""%string, None), d3)
    ∧ (exUsers !! list_byte_of_string "user.1" = None →
       bolt.buckets d1 = bolt.buckets (exStore exUsers)).
Proof.
  apply (Delete_removes (exStore exUsers) exBucket exUsers "user.1").
  apply exStore_bucket.
Defined.

(** ** The streaming writer *)

(** X10: each [Write] of a [DBWriter] replaces the value of its key; it
    does not append.  After two writes that the engine accepts, both
    report the length of their argument with a nil error, and the key
    holds the bytes of the second write only. *)
Theorem Write_replaces (d : bolt.DB) (bucket : list byte)
    (m : gmap (list byte) (list byte)) (key : string) (b1 b2 : slice) :
  bolt.buckets d !! bucket = Some m →
  0 < len (slice_of_string key) →
  len (slice_of_string key) <= bolt.MaxKeySize →
  len b1 <= bolt.MaxValueSize → len b2 <= bolt.MaxValueSize →
  ∃ d1 d2 d3,
    Write (AsWriter bucket key) b1 d = Done ((len b1, None), d1)
    ∧ Write (AsWriter bucket key) b2 d1 = Done ((len b2, None), d2)
    ∧ bolt.buckets d2
      = <[bucket := <[list_byte_of_string key := data b2]> m]> (bolt.buckets d)
    ∧ GetBytes bucket key d2 = Done ((Some (data b2), None), d3).
Proof.
  intros Hb Hk0 Hk1 Hv1 Hv2.
  pose proof (put_run d bucket m (slice_of_string key) b1 Hb Hk0 Hk1 Hv1)
    as H1.
  set (d1 := bolt.mkDB _ _) in H1.
  assert (bolt.buckets d1 !! bucket
          = Some (<[list_byte_of_string key := data b1]> m)) as Hb1
    by apply lookup_insert_eq.
  pose proof (put_run d1 bucket _ (slice_of_string key) b2 Hb1 Hk0 Hk1 Hv2)
    as H2.
  set (d2 := bolt.mkDB _ _) in H2.
  assert (bolt.buckets d2
          = <[bucket := <[list_byte_of_string key := data b2]> m]>
              (bolt.buckets d)) as Hd2.
  { subst d2 d1. cbn [bolt.buckets].
    change (data (slice_of_string key)) with (list_byte_of_string key).
    by rewrite !insert_insert_eq. }
  exists d1, d2. eexists.
  split; [unfold Write, AsWriter, bind at 1; cbn [writerBucket writerKey];
          by rewrite H1|].
  split; [unfold Write, AsWriter, bind at 1; cbn [writerBucket writerKey];
          by rewrite H2|].
  split; [done|].
  rewrite (GetBytes_run d2 bucket
             (<[list_byte_of_string key := data b2]> m)).
  - by rewrite lookup_insert_eq.
  - rewrite Hd2. apply lookup_insert_eq.
Qed.

Lemma Write_replaces_witness :
  ∃ d1 d2 d3,
    Write (AsWriter exBucket "w") (slice_of_string "abc") (exStore exUsers)
    = Done ((len (slice_of_string "abc"), None), d1)
    ∧ Write (AsWriter exBucket "w") (slice_of_string "de") d1
      = Done ((len (slice_of_string "de"), None), d2)
    ∧ bolt.buckets d2
      = <[exBucket := <[list_byte_of_string "w"
                        := data (slice_of_string "de")]> exUsers]>
          (bolt.buckets (exStore exUsers))
    ∧ GetBytes exBucket "w" d2
      = Done ((Some (data (slice_of_string "de")), None), d3).
Proof.
  apply (Write_replaces (exStore exUsers) exBucket exUsers "w"
           (slice_of_string "abc") (slice_of_string "de"));
    [apply exStore_bucket | reflexivity | vm_compute; congruence
    | vm_compute; congruence | vm_compute; congruence].
Defined.

(** X11: a [Write] that the engine rejects still reports the full length
    of its argument.  With an empty key, [Write] returns [len(b)] together
    with the "key required" error, and nothing is stored. *)
Theorem Write_reports_length_on_failure (d : bolt.DB) (bucket : list byte)
    (m : gmap (list byte) (list byte)) (b : slice) :
  bolt.buckets d !! bucket = Some m →
  ∃ d1,
    Write (AsWriter bucket "") b d
    = Done ((len b, errors.New "key required"), d1)
    ∧ bolt.buckets d1 = bolt.buckets d.
Proof.
  intros Hb.
  pose proof (put_empty_key_run d bucket m (slice_of_string "") b Hb eq_refl)
    as Hput.
  eexists. split.
  - unfold Write, AsWriter, bind at 1. cbn [writerBucket writerKey].
    rewrite Hput. reflexivity.
  - reflexivity.
Qed.

Lemma Write_reports_length_on_failure_witness :
  ∃ d1,
    Write (AsWriter exBucket "") (slice_of_string "abc") (exStore exUsers)
    = Done ((len (slice_of_string "abc"), errors.New "key required"), d1)
    ∧ bolt.buckets d1 = bolt.buckets (exStore exUsers).
Proof.
  apply (Write_reports_length_on_failure (exStore exUsers) exBucket exUsers
           (slice_of_string "abc")).
  apply exStore_bucket.
Defined.

(** ** Cached records: further behaviour of the lazy expiry *)

(** X12: the error of a lookup that expired or invalidated a record is
    reported once.  When [GetCachedBytes] finds a stored, non-empty value
    whose decoded expiry is 0 or lies in the past, it reports the error
    and deletes the key; the same lookup repeated at once returns a nil
    payload with a nil error, as for a key that was never stored. *)
Theorem GetCachedBytes_error_once (now : Z) (d : bolt.DB)
    (bucket : list byte) (m : gmap (list byte) (list byte)) (key : string)
    (v : list byte) (expire : Z) (payload : slice) :
  bolt.buckets d !! bucket = Some m →
  m !! list_byte_of_string key = Some v →
  v ≠ [] →
  ParseCacheItem (Some v) = Done (expire, payload) →
  expire = 0 ∨ (0 < expire ∧ expire < now) →
  ∃ msg d1 d2,
    GetCachedBytes now bucket key d = Done ((None, errors.New msg), d1)
    ∧ msg = (if expire =? 0 then "Invalid Key"%string else "Key Expired"%string)
    ∧ GetCachedBytes now bucket key d1 = Done ((None, None), d2)
    ∧ bolt.buckets d2 = bolt.buckets d1.
Proof.
  intros Hb Hk Hv Hparse Hstale.
  pose proof (GetCachedBytes_run now d bucket m key v expire payload
                Hb Hk Hv Hparse) as Hrun.
  cbv zeta in Hrun.
  set (d1 := bolt.mkDB (<[bucket := _]> _) _) in Hrun.
  assert (bolt.buckets d1 !! bucket
          = Some (delete (list_byte_of_string key) m)) as Hb1
    by apply lookup_insert_eq.
  pose proof (GetCachedBytes_miss now d1 bucket _ key Hb1
                (or_introl (lookup_delete_eq m _))) as Hmiss.
  exists (if expire =? 0 then "Invalid Key"%string else "Key Expired"%string), d1.
  eexists. split; [|split; [done|split; [exact Hmiss|reflexivity]]].
  rewrite Hrun. destruct Hstale as [-> | [H1 H2]]; [done|].
  destruct (Z.ltb_spec 0 expire); [|lia].
  destruct (Z.ltb_spec expire now); [|lia].
  destruct (Z.eqb_spec expire 0); [lia|]. done.
Qed.

Lemma exRecord_key :
  exRecord !! list_byte_of_string "k"
  = Some (list_byte_of_string "1700000000|v").
Proof. apply lookup_singleton_eq. Qed.

Lemma GetCachedBytes_error_once_witness :
  ∃ msg d1 d2,
    GetCachedBytes 1800000000 exBucket "k" (exStore exRecord)
    = Done ((None, errors.New msg), d1)
    ∧ msg = (if 1700000000 =? 0 then "Invalid Key"%string
              else "Key Expired"%string)
    ∧ GetCachedBytes 1800000000 exBucket "k" d1 = Done ((None, None), d2)
    ∧ bolt.buckets d2 = bolt.buckets d1.
Proof.
  apply (GetCachedBytes_error_once 1800000000 (exStore exRecord) exBucket
           exRecord "k" (list_byte_of_string "1700000000|v") 1700000000
           (Some (list_byte_of_string "v")));
    [apply exStore_bucket | apply exRecord_key | discriminate
    | vm_compute; reflexivity | right; lia].
Defined.

(** X13: a record with a negative expiry never expires.  For a stored
    value that decodes to a negative expiry, [GetCachedBytes] returns the
    payload with a nil error at every time and leaves the store as it was,
    and the test of the sweep does not select it. *)
Theorem negative_expiry_never_expires (now : Z) (d : bolt.DB)
    (bucket : list byte) (m : gmap (list byte) (list byte)) (key : string)
    (v : list byte) (expire : Z) (payload : slice) :
  bolt.buckets d !! bucket = Some m →
  m !! list_byte_of_string key = Some v →
  ParseCacheItem (Some v) = Done (expire, payload) →
  expire < 0 →
  (∃ d', GetCachedBytes now bucket key d = Done ((payload, None), d')
         ∧ bolt.buckets d' = bolt.buckets d)
  ∧ stale now expire = false
  ∧ sweep now m !! list_byte_of_string key = Some v.
Proof.
  intros Hb Hk Hparse Hneg.
  assert (v ≠ []) as Hv.
  { intros ->. rewrite ParseCacheItem_short in Hparse by done.
    inversion Hparse. lia. }
  assert (stale now expire = false) as Hstale.
  { unfold stale. destruct (Z.ltb_spec 0 expire); [lia|].
    destruct (Z.eqb_spec expire 0); [lia|]. done. }
  split; [|split; [done|]].
  - rewrite (GetCachedBytes_run now d bucket m key v expire payload) by done.
    destruct (Z.ltb_spec 0 expire); [lia|].
    destruct (Z.eqb_spec expire 0); [lia|]. cbn [andb].
    eexists. split; reflexivity.
  - rewrite lookup_sweep, Hk. unfold expiryOf. rewrite Hparse.
    by rewrite Hstale.
Qed.

Lemma negative_expiry_never_expires_witness :
  (∃ d', GetCachedBytes 1800000000 exBucket "k"
           (exStore {[ list_byte_of_string "k"
                       := list_byte_of_string "-000000001|v" ]})
         = Done ((Some (list_byte_of_string "v"), None), d')
         ∧ bolt.buckets d'
           = bolt.buckets
               (exStore {[ list_byte_of_string "k"
                           := list_byte_of_string "-000000001|v" ]}))
  ∧ stale 1800000000 (-1) = false
  ∧ sweep 1800000000
      {[ list_byte_of_string "k" := list_byte_of_string "-000000001|v" ]}
    !! list_byte_of_string "k"
    = Some (list_byte_of_string "-000000001|v").
Proof.
  apply (negative_expiry_never_expires 1800000000 _ exBucket _ "k"
           (list_byte_of_string "-000000001|v") (-1)
           (Some (list_byte_of_string "v")));
    [apply exStore_bucket | apply lookup_singleton_eq
    | vm_compute; reflexivity | lia].
Defined.

(** X14: [GetCached] destroys plain records.  A non-empty value of fewer
    than 11 bytes stored with [Set] is not a cached record: a following
    [GetCached] of the key reports "Invalid Key" and deletes the key, so
    that [Has] is false afterwards. *)
Theorem plain_value_destroyed_by_GetCached (now : Z) (d : bolt.DB)
    (bucket : list byte) (m : gmap (list byte) (list byte))
    (key value : string) :
  bolt.buckets d !! bucket = Some m →
  0 < len (slice_of_string key) →
  len (slice_of_string key) <= bolt.MaxKeySize →
  value ≠ ""%string →
  len (slice_of_string value) < 11 →
  ∃ d1 d2 d3,
    Set_ bucket key value d = Done (None, d1)
    ∧ GetCached now bucket key d1
      = Done ((""%string, errors.New "Invalid Key"), d2)
    ∧ Has bucket key d2 = Done (false, d3)
    ∧ bolt.buckets d2
      = <[bucket := delete (list_byte_of_string key) m]> (bolt.buckets d).
Proof.
  intros Hb Hk0 Hk1 Hne Hshort.
  assert (len (slice_of_string value) <= bolt.MaxValueSize) as Hv.
  { change bolt.MaxValueSize with 2147483646. lia. }
  pose proof (put_run d bucket m (slice_of_string key) (slice_of_string value)
                Hb Hk0 Hk1 Hv) as Hput.
  set (d1 := bolt.mkDB _ _) in Hput.
  set (m1 := <[list_byte_of_string key := list_byte_of_string value]> m).
  assert (bolt.buckets d1 !! bucket = Some m1) as Hb1
    by apply lookup_insert_eq.
  assert (m1 !! list_byte_of_string key = Some (list_byte_of_string value))
    as Hk by apply lookup_insert_eq.
  assert (list_byte_of_string value ≠ []) as Hnil.
  { intros Hnil. apply len_slice_of_string_pos in Hne.
    unfold len, slice_of_string in Hne. cbn [data] in Hne.
    change (default [] (Some (list_byte_of_string value)))
      with (list_byte_of_string value) in Hne.
    rewrite Hnil in Hne. cbn in Hne. lia. }
  pose proof (GetCachedBytes_run now d1 bucket m1 key
                (list_byte_of_string value) 0 None Hb1 Hk Hnil
                (ParseCacheItem_short (slice_of_string value) Hshort))
    as Hrun.
  cbv zeta in Hrun. cbn [Z.ltb Z.compare andb Z.eqb] in Hrun.
  set (d2 := bolt.mkDB (<[bucket := _]> _) _) in Hrun.
  assert (bolt.buckets d2
          = <[bucket := delete (list_byte_of_string key) m]> (bolt.buckets d))
    as Hd2.
  { subst d2 d1 m1. cbn [bolt.buckets].
    change (data (slice_of_string key)) with (list_byte_of_string key).
    by rewrite insert_insert_eq, delete_insert_eq. }
  exists d1, d2. eexists.
  split; [unfold Set_, SetBytes, bind at 1; by rewrite Hput|].
  split; [unfold GetCached, bind; by rewrite Hrun|].
  split; [|done].
  rewrite (Has_run d2 bucket (delete (list_byte_of_string key) m)).
  - by rewrite lookup_delete_eq.
  - rewrite Hd2. apply lookup_insert_eq.
Qed.

Lemma plain_value_destroyed_by_GetCached_witness :
  ∃ d1 d2 d3,
    Set_ exBucket "k" "watched" (exStore exUsers) = Done (None, d1)
    ∧ GetCached 1700000000 exBucket "k" d1
      = Done ((""%string, errors.New "Invalid Key"), d2)
    ∧ Has exBucket "k" d2 = Done (false, d3)
    ∧ bolt.buckets d2
      = <[exBucket := delete (list_byte_of_string "k") exUsers]>
          (bolt.buckets (exStore exUsers)).
Proof.
  apply (plain_value_destroyed_by_GetCached 1700000000 (exStore exUsers) exBucket
           exUsers "k" "watched");
    [apply exStore_bucket | reflexivity | vm_compute; congruence
    | discriminate | reflexivity].
Defined.

(** ** Cached booleans *)

Lemma ParseBool_FormatBool (b : bool) :
  strconv.ParseBool (strconv.FormatBool b) = (b, None).
Proof. by destruct b. Qed.

Lemma len_cacheItem (now seconds : Z) (value : slice) :
  10 ^ 9 <= now + seconds → now + seconds < 10 ^ 10 →
  len (cacheItem now seconds value) = 11 + len value.
Proof.
  intros Hlo Hhi. unfold len at 1. rewrite cacheItem_data.
  destruct (Itoa_ten_digits (now + seconds) Hlo Hhi) as (ds & -> & Hlen & _).
  rewrite length_app. cbn [length]. unfold len. lia.
Qed.

(** X15: a cached boolean reads back.  For an existing bucket, a key the
    engine accepts and a ten-digit expiry [t0+ttl], [SetCachedBool]
    returns nil, and [GetCachedBool] at any time [t1] up to the expiry
    returns the boolean that was stored, with a nil error, and leaves the
    store as it was. *)
Theorem SetCachedBool_then_GetCachedBool (t0 ttl t1 : Z) (d : bolt.DB)
    (bucket : list byte) (m : gmap (list byte) (list byte))
    (key : string) (value : bool) :
  bolt.buckets d !! bucket = Some m →
  0 < len (slice_of_string key) →
  len (slice_of_string key) <= bolt.MaxKeySize →
  10 ^ 9 <= t0 + ttl → t0 + ttl < 10 ^ 10 →
  t1 <= t0 + ttl →
  ∃ d1 d2,
    SetCachedBool t0 bucket ttl key value d = Done (None, d1)
    ∧ GetCachedBool t1 bucket key d1 = Done ((value, None), d2)
    ∧ bolt.buckets d2 = bolt.buckets d1.
Proof.
  intros Hb Hk0 Hk1 Hlo Hhi Ht1.
  set (payload := slice_of_string (strconv.FormatBool value)).
  assert (len (cacheItem t0 ttl payload) <= bolt.MaxValueSize) as Hv.
  { rewrite len_cacheItem by done. change bolt.MaxValueSize with 2147483646.
    subst payload. destruct value; vm_compute; congruence. }
  pose proof (SetCachedBytes_run t0 d bucket m ttl key payload Hb Hk0 Hk1 Hv)
    as Hset.
  set (item := data (cacheItem t0 ttl payload)) in *.
  set (m1 := <[list_byte_of_string key := item]> m) in *.
  set (d1 := bolt.mkDB _ _) in Hset.
  assert (bolt.buckets d1 !! bucket = Some m1) as Hb1
    by apply lookup_insert_eq.
  assert (m1 !! list_byte_of_string key = Some item) as Hk
    by apply lookup_insert_eq.
  assert (ParseCacheItem (Some item) = Done (t0 + ttl, Some (data payload)))
    as Hparse by (by apply ParseCacheItem_cacheItem).
  assert (item ≠ []) as Hne.
  { subst item. rewrite cacheItem_data. intros Hnil.
    by apply app_eq_nil in Hnil as [_ ?]. }
  pose proof (GetCachedBytes_run t1 d1 bucket m1 key item (t0 + ttl)
                (Some (data payload)) Hb1 Hk Hne Hparse) as Hrun.
  cbv zeta in Hrun.
  change (10 ^ 9) with 1000000000 in Hlo.
  destruct (Z.ltb_spec (t0 + ttl) t1); [lia|].
  destruct (Z.eqb_spec (t0 + ttl) 0); [lia|].
  rewrite andb_false_r in Hrun.
  exists d1. eexists. split; [exact Hset|]. split.
  - unfold GetCachedBool, bind. rewrite Hrun.
    change (Some (data payload)) with payload. subst payload.
    rewrite slice_string_roundtrip, ParseBool_FormatBool. reflexivity.
  - reflexivity.
Qed.

Lemma SetCachedBool_then_GetCachedBool_witness :
  ∃ d1 d2,
    SetCachedBool 1700000000 exBucket 3600 "k" true (exStore exUsers)
    = Done (None, d1)
    ∧ GetCachedBool 1700000001 exBucket "k" d1 = Done ((true, None), d2)
    ∧ bolt.buckets d2 = bolt.buckets d1.
Proof.
  apply (SetCachedBool_then_GetCachedBool 1700000000 3600 1700000001
           (exStore exUsers) exBucket exUsers "k" true);
    [apply exStore_bucket | reflexivity | vm_compute; congruence
    | lia | lia | lia].
Defined.

(** X16: a cached boolean that is not there is an error.  For a key that
    is absent or holds no bytes, [GetCachedBool] returns [false] together
    with the syntax error of [strconv.ParseBool] on the empty string --
    where [GetCached] returns a nil error -- and leaves the store as it
    was. *)
Theorem GetCachedBool_absent (now : Z) (d : bolt.DB)
    (bucket : list byte) (m : gmap (list byte) (list byte)) (key : string) :
  bolt.buckets d !! bucket = Some m →
  m !! list_byte_of_string key = None ∨ m !! list_byte_of_string key = Some [] →
  ∃ d1 d2,
    GetCachedBool now bucket key d
    = Done ((false, Some (inr strconv.ErrSyntax)), d1)
    ∧ bolt.buckets d1 = bolt.buckets d
    ∧ GetCached now bucket key d = Done ((""%string, None), d2).
Proof.
  intros Hb Hk. eexists _, _.
  unfold GetCachedBool, GetCached, bind.
  rewrite (GetCachedBytes_miss now d bucket m key Hb Hk).
  split; [reflexivity|]. split; reflexivity.
Qed.

Lemma GetCachedBool_absent_witness :
  ∃ d1 d2,
    GetCachedBool 1700000000 exBucket "" (exStore exUsers)
    = Done ((false, Some (inr strconv.ErrSyntax)), d1)
    ∧ bolt.buckets d1 = bolt.buckets (exStore exUsers)
    ∧ GetCached 1700000000 exBucket "" (exStore exUsers)
      = Done ((""%string, None), d2).
Proof.
  apply (GetCachedBool_absent 1700000000 (exStore exUsers) exBucket exUsers "");
    [apply exStore_bucket | left; apply exUsers_no_empty_key].
Defined.

(** ** Batch writes *)

Lemma list_byte_of_string_inj (s t : string) :
  list_byte_of_string s = list_byte_of_string t → s = t.
Proof.
  intros H. apply (f_equal string_of_list_byte) in H.
  by rewrite !string_of_list_byte_of_string in H.
Qed.

Lemma lookup_insertAll_notin (objects : list (string * slice))
    (m : gmap (list byte) (list byte)) (k : list byte) :
  k ∉ list_byte_of_string <$> objects.*1 →
  insertAll objects m !! k = m !! k.
Proof.
  unfold insertAll. revert m.
  induction objects as [|[key value] objects IH]; intros m Hnotin; [done|].
  cbn [foldl]. cbn in Hnotin. apply not_elem_of_cons in Hnotin as [Hne Hnotin].
  rewrite IH by done. cbn. by rewrite lookup_insert_ne.
Qed.

Lemma lookup_insertAll_in (objects : list (string * slice))
    (m : gmap (list byte) (list byte)) (key : string) (value : slice) :
  NoDup objects.*1 → (key, value) ∈ objects →
  insertAll objects m !! list_byte_of_string key = Some (data value).
Proof.
  revert m.
  induction objects as [|[key' value'] objects IH]; intros m Hnd Hin.
  { by apply elem_of_nil in Hin. }
  cbn in Hnd. apply NoDup_cons in Hnd as [Hfresh Hnd].
  apply elem_of_cons in Hin as [[= <- <-]|Hin].
  - change (insertAll ((key, value) :: objects) m)
      with (insertAll objects (<[list_byte_of_string key := data value]> m)).
    rewrite lookup_insertAll_notin; [apply lookup_insert_eq|].
    intros (key'' & Heq & Hin)%list_elem_of_fmap.
    apply list_byte_of_string_inj in Heq. by subst key''.
  - change (insertAll ((key', value') :: objects) m)
      with (insertAll objects (<[list_byte_of_string key' := data value']> m)).
    by apply IH.
Qed.

Lemma Bucket_Put_ok (name : list byte)
    (root : gmap (list byte) (gmap (list byte) (list byte)))
    (trace : list bolt.Op) (m : gmap (list byte) (list byte))
    (key : string) (value : slice) :
  root !! name = Some m → acceptable (key, value) →
  bolt.Bucket_Put (Some name) (slice_of_string key) value
    (bolt.mkTx true root trace)
  = Done (None,
          bolt.mkTx true
            (<[name := <[list_byte_of_string key := data value]> m]> root)
            (trace ++ [bolt.OpPut name (list_byte_of_string key) (data value)])).
Proof.
  intros Hm (Hk0 & Hk1 & Hv). cbn in Hk0, Hk1, Hv.
  unfold bolt.Bucket_Put. run_in Hm.
  destruct (Z.eqb_spec (len (slice_of_string key)) 0); [lia|].
  destruct (Z.ltb_spec bolt.MaxKeySize (len (slice_of_string key))); [lia|].
  destruct (Z.ltb_spec bolt.MaxValueSize (len value)); [lia|].
  reflexivity.
Qed.

Lemma Bucket_Put_rejected (name : list byte)
    (root : gmap (list byte) (gmap (list byte) (list byte)))
    (trace : list bolt.Op) (m : gmap (list byte) (list byte))
    (key : string) (value : slice) :
  root !! name = Some m → ¬ acceptable (key, value) →
  ∃ msg,
    bolt.Bucket_Put (Some name) (slice_of_string key) value
      (bolt.mkTx true root trace)
    = Done (Some msg, bolt.mkTx true root trace).
Proof.
  intros Hm Hbad. unfold acceptable in Hbad. cbn in Hbad.
  unfold bolt.Bucket_Put. run_in Hm.
  destruct (Z.eqb_spec (len (slice_of_string key)) 0); [by eexists|].
  destruct (Z.ltb_spec bolt.MaxKeySize (len (slice_of_string key)));
    [by eexists|].
  destruct (Z.ltb_spec bolt.MaxValueSize (len value)); [by eexists|].
  exfalso. apply Hbad. unfold len in *. cbn in *. lia.
Qed.

Lemma batchSetLoop_ok (name : list byte) (objects : list (string * slice))
    (root : gmap (list byte) (gmap (list byte) (list byte)))
    (trace : list bolt.Op) (m : gmap (list byte) (list byte)) :
  root !! name = Some m → Forall acceptable objects →
  ∃ trace',
    batchSetLoop (Some name) objects (bolt.mkTx true root trace)
    = Done (None, bolt.mkTx true (<[name := insertAll objects m]> root) trace').
Proof.
  revert root trace m.
  induction objects as [|[key value] objects IH]; intros root trace m Hm Hall.
  { exists trace. cbn. unfold ret. by rewrite insert_id. }
  apply Forall_cons in Hall as [Hok Hall].
  cbn [batchSetLoop]. unfold bind at 1.
  rewrite (Bucket_Put_ok name root trace m key value Hm Hok).
  destruct (IH (<[name := <[list_byte_of_string key := data value]> m]> root)
              (trace ++ [bolt.OpPut name (list_byte_of_string key) (data value)])
              (<[list_byte_of_string key := data value]> m))
    as [trace' ->]; [apply lookup_insert_eq|done|].
  exists trace'. by rewrite insert_insert_eq.
Qed.

Lemma batchSetLoop_fail (name : list byte) (objects : list (string * slice))
    (root : gmap (list byte) (gmap (list byte) (list byte)))
    (trace : list bolt.Op) (m : gmap (list byte) (list byte)) :
  root !! name = Some m → Exists (λ kv, ¬ acceptable kv) objects →
  ∃ msg tx,
    batchSetLoop (Some name) objects (bolt.mkTx true root trace)
    = Done (Some msg, tx).
Proof.
  revert root trace m.
  induction objects as [|[key value] objects IH]; intros root trace m Hm Hex.
  { by apply Exists_nil in Hex. }
  cbn [batchSetLoop]. unfold bind at 1.
  destruct (decide (0 < len (slice_of_string key)
                    ∧ len (slice_of_string key) <= bolt.MaxKeySize
                    ∧ len value <= bolt.MaxValueSize)) as [Hok|Hbad].
  - rewrite (Bucket_Put_ok name root trace m key value Hm Hok).
    apply Exists_cons in Hex as [Hbad|Hex]; [done|].
    eapply IH; [apply lookup_insert_eq|done].
  - destruct (Bucket_Put_rejected name root trace m key value Hm Hbad)
      as [msg ->].
    by eexists _, _.
Qed.

Lemma BatchSet_run_ok (d : bolt.DB) (bucket : list byte)
    (m : gmap (list byte) (list byte)) (objects : list (string * slice)) :
  bolt.buckets d !! bucket = Some m → Forall acceptable objects →
  ∃ d',
    bolt.Batch (let* b := bolt.Tx_Bucket bucket in
                let* err := batchSetLoop b objects in
                ret ((), err)) d
    = Done (((), None), d')
    ∧ bolt.buckets d' = <[bucket := insertAll objects m]> (bolt.buckets d).
Proof.
  intros Hb Hall.
  unfold bolt.Batch, bolt.writeTx, bind at 1, bolt.Tx_Bucket at 1, bolt.begin.
  cbn [bolt.root]. rewrite Hb. unfold bind at 1.
  destruct (batchSetLoop_ok bucket objects (bolt.buckets d) [] m Hb Hall)
    as [trace' ->].
  eexists. split; reflexivity.
Qed.

Lemma BatchSet_run_fail (d : bolt.DB) (bucket : list byte)
    (m : gmap (list byte) (list byte)) (objects : list (string * slice)) :
  bolt.buckets d !! bucket = Some m → Exists (λ kv, ¬ acceptable kv) objects →
  ∃ msg d',
    bolt.Batch (let* b := bolt.Tx_Bucket bucket in
                let* err := batchSetLoop b objects in
                ret ((), err)) d
    = Done (((), Some msg), d')
    ∧ bolt.buckets d' = bolt.buckets d.
Proof.
  intros Hb Hex.
  unfold bolt.Batch, bolt.writeTx, bind at 1, bolt.Tx_Bucket at 1, bolt.begin.
  cbn [bolt.root]. rewrite Hb. unfold bind at 1.
  destruct (batchSetLoop_fail bucket objects (bolt.buckets d) [] m Hb Hex)
    as (msg & tx & ->).
  eexists _, _. split; reflexivity.
Qed.

(** X17: [BatchSetBytes] is all or nothing, and the order in which the
    map is visited does not matter.  Let the pairs of the map have
    distinct keys and the bucket exist.  When the engine accepts every
    pair, the call returns nil and the bucket holds every pair of the map,
    all other keys as before.  When some pair is not accepted (an empty or
    oversized key, an oversized value), the call returns an error and the
    store is left with nothing written, the pairs put before the failing
    one included. *)
Theorem BatchSetBytes_all_or_nothing (d : bolt.DB) (bucket : list byte)
    (m : gmap (list byte) (list byte)) (objects : list (string * slice)) :
  bolt.buckets d !! bucket = Some m →
  NoDup objects.*1 →
  (Forall acceptable objects →
   ∃ d' m',
     BatchSetBytes bucket objects d = Done (None, d')
     ∧ bolt.buckets d' = <[bucket := m']> (bolt.buckets d)
     ∧ (∀ key value, (key, value) ∈ objects →
                     m' !! list_byte_of_string key = Some (data value))
     ∧ (∀ k, k ∉ list_byte_of_string <$> objects.*1 → m' !! k = m !! k))
  ∧ (Exists (λ kv, ¬ acceptable kv) objects →
     ∃ msg d',
       BatchSetBytes bucket objects d = Done (Some msg, d')
       ∧ bolt.buckets d' = bolt.buckets d).
Proof.
  intros Hb Hnd. split.
  - intros Hall.
    destruct (BatchSet_run_ok d bucket m objects Hb Hall) as (d' & Hrun & Hd').
    exists d', (insertAll objects m).
    split; [unfold BatchSetBytes, bind at 1; by rewrite Hrun|].
    split; [done|]. split.
    + intros key value Hin. by apply lookup_insertAll_in.
    + intros k Hk. by apply lookup_insertAll_notin.
  - intros Hex.
    destruct (BatchSet_run_fail d bucket m objects Hb Hex)
      as (msg & d' & Hrun & Hd').
    exists msg, d'. split; [|done].
    unfold BatchSetBytes, bind at 1. by rewrite Hrun.
Qed.

Lemma BatchSetBytes_all_or_nothing_witness :
  ∃ d' m',
    BatchSetBytes exBucket [("a"%string, slice_of_string "1");
                            ("b"%string, slice_of_string "2")]
      (exStore exUsers) = Done (None, d')
    ∧ bolt.buckets d' = <[exBucket := m']> (bolt.buckets (exStore exUsers))
    ∧ (∀ key value,
         (key, value) ∈ [("a"%string, slice_of_string "1");
                         ("b"%string, slice_of_string "2")] →
         m' !! list_byte_of_string key = Some (data value))
    ∧ (∀ k, k ∉ list_byte_of_string
                 <$> [("a"%string, slice_of_string "1");
                      ("b"%string, slice_of_string "2")].*1 →
            m' !! k = exUsers !! k).
Proof.
  apply (BatchSetBytes_all_or_nothing (exStore exUsers) exBucket exUsers
           [("a"%string, slice_of_string "1");
            ("b"%string, slice_of_string "2")]).
  - apply exStore_bucket.
  - cbn. repeat constructor; rewrite ?elem_of_cons, ?elem_of_nil;
      intros H; intuition discriminate.
  - repeat constructor; vm_compute; congruence.
Defined.

(** X18: [BatchSet] behaves as [BatchSetBytes] on the bytes of its string
    values: with distinct keys on an existing bucket it stores every pair
    when the engine accepts them all, and stores nothing and returns an
    error when it rejects one. *)
Theorem BatchSet_all_or_nothing (d : bolt.DB) (bucket : list byte)
    (m : gmap (list byte) (list byte)) (objects : list (string * string)) :
  bolt.buckets d !! bucket = Some m →
  NoDup objects.*1 →
  (Forall (λ kv, acceptable (kv.1, slice_of_string kv.2)) objects →
   ∃ d' m',
     BatchSet bucket objects d = Done (None, d')
     ∧ bolt.buckets d' = <[bucket := m']> (bolt.buckets d)
     ∧ (∀ key value,
          (key, value) ∈ objects →
          m' !! list_byte_of_string key = Some (list_byte_of_string value))
     ∧ (∀ k, k ∉ list_byte_of_string <$> objects.*1 → m' !! k = m !! k))
  ∧ (Exists (λ kv, ¬ acceptable (kv.1, slice_of_string kv.2)) objects →
     ∃ msg d',
       BatchSet bucket objects d = Done (Some msg, d')
       ∧ bolt.buckets d' = bolt.buckets d).
Proof.
  intros Hb Hnd.
  set (conv := λ kv : string * string, (kv.1, slice_of_string kv.2)).
  assert ((conv <$> objects).*1 = objects.*1) as Hkeys.
  { rewrite <- list_fmap_compose. by apply list_fmap_ext. }
  split.
  - intros Hall.
    assert (Forall acceptable (conv <$> objects)) as Hall'
      by (by apply Forall_fmap).
    destruct (BatchSet_run_ok d bucket m (conv <$> objects) Hb Hall')
      as (d' & Hrun & Hd').
    exists d', (insertAll (conv <$> objects) m).
    split; [unfold BatchSet, bind at 1; fold conv; by rewrite Hrun|].
    split; [done|]. split.
    + intros key value Hin.
      apply (lookup_insertAll_in (conv <$> objects) m key (slice_of_string value)).
      * by rewrite Hkeys.
      * apply list_elem_of_fmap. by exists (key, value).
    + intros k Hk. apply lookup_insertAll_notin. by rewrite Hkeys.
  - intros Hex.
    assert (Exists (λ kv, ¬ acceptable kv) (conv <$> objects)) as Hex'
      by (by apply Exists_fmap).
    destruct (BatchSet_run_fail d bucket m (conv <$> objects) Hb Hex')
      as (msg & d' & Hrun & Hd').
    exists msg, d'. split; [|done].
    unfold BatchSet, bind at 1. fold conv. by rewrite Hrun.
Qed.

Lemma BatchSet_all_or_nothing_witness :
  ∃ msg d',
    BatchSet exBucket [("a"%string, "1"%string); (""%string, "2"%string)]
      (exStore exUsers) = Done (Some msg, d')
    ∧ bolt.buckets d' = bolt.buckets (exStore exUsers).
Proof.
  apply (BatchSet_all_or_nothing (exStore exUsers) exBucket exUsers
           [("a"%string, "1"%string); (""%string, "2"%string)]).
  - apply exStore_bucket.
  - cbn. repeat constructor; rewrite ?elem_of_cons, ?elem_of_nil;
      intros H; intuition discriminate.
  - apply Exists_cons_tl, Exists_cons_hd.
    intros (H & _). vm_compute in H. discriminate H.
Defined.

(** ** Structured values *)

(** X19: what a missing structured value looks like depends on the
    reader.  For a key that is absent or holds no bytes, [GetObject]
    returns the error "Bytes empty" while [GetCachedObject] returns a nil
    error; neither calls the decoder, changes the item passed in, or
    changes the store. *)
Theorem GetObject_absent {Item : Type}
    (Unmarshal : list byte → Item → Item * error) (now : Z) (d : bolt.DB)
    (bucket : list byte) (m : gmap (list byte) (list byte)) (key : string)
    (item : Item) :
  bolt.buckets d !! bucket = Some m →
  m !! list_byte_of_string key = None ∨ m !! list_byte_of_string key = Some [] →
  ∃ d1 d2,
    GetObject Unmarshal bucket key item d
    = Done ((item, errors.New "Bytes empty"), d1)
    ∧ bolt.buckets d1 = bolt.buckets d
    ∧ GetCachedObject Unmarshal now bucket key item d = Done ((item, None), d2)
    ∧ bolt.buckets d2 = bolt.buckets d.
Proof.
  intros Hb Hk. eexists _, _.
  unfold GetObject, GetCachedObject, bind.
  rewrite (GetBytes_run d bucket m Hb key).
  rewrite (GetCachedBytes_miss now d bucket m key Hb Hk).
  destruct Hk as [-> | ->]; repeat split; reflexivity.
Qed.

Lemma GetObject_absent_witness :
  ∃ d1 d2,
    GetObject (λ (b : list byte) (_ : string), (string_of_list_byte b, None))
      exBucket "" "unset"%string (exStore exUsers)
    = Done (("unset"%string, errors.New "Bytes empty"), d1)
    ∧ bolt.buckets d1 = bolt.buckets (exStore exUsers)
    ∧ GetCachedObject
        (λ (b : list byte) (_ : string), (string_of_list_byte b, None))
        1700000000 exBucket "" "unset"%string (exStore exUsers)
      = Done (("unset"%string, None), d2)
    ∧ bolt.buckets d2 = bolt.buckets (exStore exUsers).
Proof.
  apply (GetObject_absent _ 1700000000 (exStore exUsers) exBucket exUsers "");
    [apply exStore_bucket | left; apply exUsers_no_empty_key].
Defined.

(** X20: [SetObject] followed by [GetObject] hands the decoder the bytes
    the encoder produced.  If [Marshal] succeeds with bytes that are not
    empty and that the engine accepts under the key, [SetObject] returns
    nil, and [GetObject] returns the item and the error that [Unmarshal]
    gives on exactly those bytes.  If [Marshal] fails, [SetObject] returns
    its error and stores nothing. *)
Theorem SetObject_then_GetObject {Item : Type}
    (Marshal : Item → slice * error)
    (Unmarshal : list byte → Item → Item * error) (d : bolt.DB)
    (bucket : list byte) (m : gmap (list byte) (list byte)) (key : string)
    (obj item : Item) (buf : slice) :
  bolt.buckets d !! bucket = Some m →
  0 < len (slice_of_string key) →
  len (slice_of_string key) <= bolt.MaxKeySize →
  (∀ msg, Marshal obj = (buf, Some msg) →
          SetObject Marshal bucket key obj d = Done (Some msg, d))
  ∧ (Marshal obj = (buf, None) → 0 < len buf → len buf <= bolt.MaxValueSize →
     ∃ d1 d2,
       SetObject Marshal bucket key obj d = Done (None, d1)
       ∧ GetObject Unmarshal bucket key item d1
         = Done (Unmarshal (data buf) item, d2)
       ∧ bolt.buckets d2 = bolt.buckets d1).
Proof.
  intros Hb Hk0 Hk1. split.
  - intros msg Hm. unfold SetObject. by rewrite Hm.
  - intros Hm Hbuf0 Hbuf1.
    pose proof (put_run d bucket m (slice_of_string key) buf Hb Hk0 Hk1 Hbuf1)
      as Hput.
    set (d1 := bolt.mkDB _ _) in Hput.
    assert (bolt.buckets d1 !! bucket
            = Some (<[list_byte_of_string key := data buf]> m)) as Hb1
      by apply lookup_insert_eq.
    exists d1. eexists. split; [|split].
    + unfold SetObject. rewrite Hm. unfold bind at 1, SetBytes, bind at 1.
      by rewrite Hput.
    + unfold GetObject, bind.
      rewrite (GetBytes_run d1 bucket _ Hb1 key), lookup_insert_eq.
      assert ((len (Some (data buf)) =? 0) = false) as ->.
      { apply Z.eqb_neq. unfold len in *. cbn in *. lia. }
      cbn. by destruct (Unmarshal (data buf) item).
    + reflexivity.
Qed.

Lemma SetObject_then_GetObject_witness :
  ∃ d1 d2,
    SetObject (λ s : string, (slice_of_string s, None)) exBucket "k"
      "obj"%string (exStore exUsers) = Done (None, d1)
    ∧ GetObject (λ (b : list byte) (_ : string), (string_of_list_byte b, None))
        exBucket "k" ""%string d1
      = Done ((λ (b : list byte) (_ : string), (string_of_list_byte b, None))
                (data (slice_of_string "obj")) ""%string, d2)
    ∧ bolt.buckets d2 = bolt.buckets d1.
Proof.
  apply (SetObject_then_GetObject
           (λ s : string, (slice_of_string s, None))
           (λ (b : list byte) (_ : string), (string_of_list_byte b, None))
           (exStore exUsers) exBucket exUsers "k" "obj"%string ""%string
           (slice_of_string "obj"));
    [apply exStore_bucket | reflexivity | vm_compute; congruence
    | reflexivity | reflexivity | vm_compute; congruence].
Defined.

(** ** The sweep, without assumptions on the records *)

Lemma stale_spec (now expire : Z) :
  stale now expire
  = bool_decide (expire = 0 ∨ (0 < expire ∧ expire < now)).
Proof.
  unfold stale.
  destruct (Z.ltb_spec 0 expire), (Z.ltb_spec expire now),
    (Z.eqb_spec expire 0); cbn;
    (rewrite bool_decide_eq_true_2 by lia)
    || (rewrite bool_decide_eq_false_2 by lia);
    done.
Qed.

(** X21: [CacheCleanup] returns for every list of cache buckets and every
    store, whether the buckets exist or not.  In each existing cache
    bucket it removes exactly the keys whose decoded expiry is 0 or lies
    strictly between 0 and [now], and keeps every other pair -- among them
    the records with a negative expiry.  Buckets that are not listed are
    left as they were, and no bucket is created. *)
Theorem CacheCleanup_exact (now : Z) (CacheBuckets : list (list byte))
    (d : bolt.DB) :
  ∃ d',
    CacheCleanup now CacheBuckets d = Done ((), d')
    ∧ (∀ bucket, bucket ∉ CacheBuckets →
                 bolt.buckets d' !! bucket = bolt.buckets d !! bucket)
    ∧ (∀ bucket, bolt.buckets d !! bucket = None →
                 bolt.buckets d' !! bucket = None)
    ∧ (∀ bucket m,
         bucket ∈ CacheBuckets → bolt.buckets d !! bucket = Some m →
         ∃ m',
           bolt.buckets d' !! bucket = Some m'
           ∧ ∀ k, m' !! k
                  = match m !! k with
                    | Some v =>
                        if bool_decide
                             (expiryOf v = 0
                              ∨ (0 < expiryOf v ∧ expiryOf v < now))
                        then None else Some v
                    | None => None
                    end).
Proof.
  eexists. split; [apply CacheCleanup_run|]. cbn [bolt.buckets].
  split; [|split].
  - intros bucket Hnotin. by rewrite lookup_sweepAll, decide_False.
  - intros bucket Hnone. rewrite lookup_sweepAll, Hnone. by case_decide.
  - intros bucket m Hin Hb. exists (sweep now m).
    split; [by rewrite lookup_sweepAll, decide_True, Hb|].
    intros k. rewrite lookup_sweep.
    destruct (m !! k) as [v|]; [|done]. by rewrite stale_spec.
Qed.

(** X22: after a sweep at time [now], every key still present in a cache
    bucket is a valid hit.  For each pair left in a cache bucket,
    [GetCachedBytes] at any time up to [now] returns the payload the
    decoder reads from the value, with a nil error, and deletes nothing. *)
Theorem CacheCleanup_then_hits (now : Z) (CacheBuckets : list (list byte))
    (d : bolt.DB) :
  ∃ d',
    CacheCleanup now CacheBuckets d = Done ((), d')
    ∧ ∀ bucket m' key v t,
        bucket ∈ CacheBuckets →
        bolt.buckets d' !! bucket = Some m' →
        m' !! list_byte_of_string key = Some v →
        t <= now →
        ∃ payload d'',
          ParseCacheItem (Some v) = Done (expiryOf v, payload)
          ∧ GetCachedBytes t bucket key d' = Done ((payload, None), d'')
          ∧ bolt.buckets d'' = bolt.buckets d'.
Proof.
  eexists. split; [apply CacheCleanup_run|].
  intros bucket m' key v t Hin Hb' Hk Ht.
  cbn [bolt.buckets] in Hb'.
  rewrite lookup_sweepAll, decide_True in Hb' by done.
  destruct (bolt.buckets d !! bucket) as [m|] eqn:Hb; [|done].
  cbn in Hb'. injection Hb' as <-.
  pose proof Hk as Hk'. rewrite lookup_sweep in Hk'.
  destruct (m !! list_byte_of_string key) as [v'|] eqn:Hm; [|done].
  destruct (stale now (expiryOf v')) eqn:Hstale; [done|].
  injection Hk' as ->.
  destruct (expiryOf_spec v) as [payload Hparse].
  assert (v ≠ []) as Hv.
  { intros ->. change (expiryOf []) with 0 in Hstale.
    unfold stale in Hstale. cbn in Hstale. done. }
  exists payload.
  set (d' := bolt.mkDB _ _).
  assert (bolt.buckets d' !! bucket = Some (sweep now m)) as Hbd.
  { subst d'. cbn [bolt.buckets].
    by rewrite lookup_sweepAll, decide_True, Hb. }
  rewrite (GetCachedBytes_run t d' bucket (sweep now m) key v
             (expiryOf v) payload Hbd Hk Hv Hparse).
  rewrite stale_spec in Hstale. apply bool_decide_eq_false in Hstale.
  destruct (Z.ltb_spec 0 (expiryOf v)), (Z.ltb_spec (expiryOf v) t),
    (Z.eqb_spec (expiryOf v) 0); cbn [andb]; try lia;
    eexists; (split; [done|]); split; reflexivity.
Qed.

Lemma sweepJournal_listed (now : Z) (X : list byte)
    (CacheBuckets : list (list byte))
    (s : gmap (list byte) (gmap (list byte) (list byte)))
    (i : nat) (t : bolt.TxRecord) :
  sweepJournal now CacheBuckets s !! i = Some t → deletesFrom X t →
  X ∈ CacheBuckets.
Proof.
  revert s i. induction CacheBuckets as [|b rest IH]; intros s i Hi Hdel;
    [done|].
  cbn [sweepJournal] in Hi. apply lookup_app_Some in Hi as [Hi|[_ Hi]].
  - destruct (cleanupJournal_deletes now b X s i t Hi Hdel) as (-> & _). left.
  - right. by eapply IH.
Qed.

Lemma sweepAll_idempotent (now : Z) (CacheBuckets : list (list byte))
    (s : gmap (list byte) (gmap (list byte) (list byte))) :
  sweepAll now CacheBuckets (sweepAll now CacheBuckets s)
  = sweepAll now CacheBuckets s.
Proof.
  apply map_eq. intros X. rewrite !lookup_sweepAll.
  case_decide; [|done].
  destruct (s !! X) as [m|]; [|done]. cbn. by rewrite sweep_idempotent.
Qed.

(** X23: a second sweep at the same time does nothing.  Running
    [CacheCleanup] again with the same clock reading leaves every bucket
    as the first run left it, and none of the transactions of the second
    run deletes a key. *)
Theorem CacheCleanup_twice (now : Z) (CacheBuckets : list (list byte))
    (d : bolt.DB) :
  ∃ d1 d2 new,
    CacheCleanup now CacheBuckets d = Done ((), d1)
    ∧ CacheCleanup now CacheBuckets d1 = Done ((), d2)
    ∧ bolt.buckets d2 = bolt.buckets d1
    ∧ bolt.journal d2 = bolt.journal d1 ++ new
    ∧ ∀ i t bucket, new !! i = Some t → ¬ deletesFrom bucket t.
Proof.
  pose proof (CacheCleanup_run now CacheBuckets d) as H1.
  set (d1 := bolt.mkDB _ _) in H1.
  pose proof (CacheCleanup_run now CacheBuckets d1) as H2.
  set (d2 := bolt.mkDB _ _) in H2.
  exists d1, d2, (sweepJournal now CacheBuckets (bolt.buckets d1)).
  split; [done|]. split; [done|].
  split; [apply sweepAll_idempotent|]. split; [done|].
  intros i t bucket Hi Hdel.
  pose proof (sweepJournal_listed now bucket CacheBuckets _ i t Hi Hdel) as Hin.
  apply (sweepJournal_clean now bucket CacheBuckets (bolt.buckets d1) i t);
    [|done|done].
  intros m. subst d1. cbn [bolt.buckets].
  rewrite lookup_sweepAll, decide_True by done.
  destruct (bolt.buckets d !! bucket); [|done]. intros [= <-].
  apply staleKeys_sweep.
Qed.

Lemma CacheCleanup_exact_witness :
  ∃ d',
    CacheCleanup 1650000000 [exBucket] (exStore exMixed) = Done ((), d')
    ∧ (∀ bucket, bucket ∉ [exBucket] →
                 bolt.buckets d' !! bucket
                 = bolt.buckets (exStore exMixed) !! bucket)
    ∧ (∀ bucket, bolt.buckets (exStore exMixed) !! bucket = None →
                 bolt.buckets d' !! bucket = None)
    ∧ (∀ bucket m,
         bucket ∈ [exBucket] →
         bolt.buckets (exStore exMixed) !! bucket = Some m →
         ∃ m',
           bolt.buckets d' !! bucket = Some m'
           ∧ ∀ k, m' !! k
                  = match m !! k with
                    | Some v =>
                        if bool_decide
                             (expiryOf v = 0
                              ∨ (0 < expiryOf v ∧ expiryOf v < 1650000000))
                        then None else Some v
                    | None => None
                    end).
Proof. apply (CacheCleanup_exact 1650000000 [exBucket] (exStore exMixed)). Defined.

Lemma CacheCleanup_then_hits_witness :
  ∃ d',
    CacheCleanup 1650000000 [exBucket] (exStore exMixed) = Done ((), d')
    ∧ ∀ bucket m' key v t,
        bucket ∈ [exBucket] →
        bolt.buckets d' !! bucket = Some m' →
        m' !! list_byte_of_string key = Some v →
        t <= 1650000000 →
        ∃ payload d'',
          ParseCacheItem (Some v) = Done (expiryOf v, payload)
          ∧ GetCachedBytes t bucket key d' = Done ((payload, None), d'')
          ∧ bolt.buckets d'' = bolt.buckets d'.
Proof.
  apply (CacheCleanup_then_hits 1650000000 [exBucket] (exStore exMixed)).
Defined.

Lemma CacheCleanup_twice_witness :
  ∃ d1 d2 new,
    CacheCleanup 1650000000 [exBucket] (exStore exMixed) = Done ((), d1)
    ∧ CacheCleanup 1650000000 [exBucket] d1 = Done ((), d2)
    ∧ bolt.buckets d2 = bolt.buckets d1
    ∧ bolt.journal d2 = bolt.journal d1 ++ new
    ∧ ∀ i t bucket, new !! i = Some t → ¬ deletesFrom bucket t.
Proof.
  apply (CacheCleanup_twice 1650000000 [exBucket] (exStore exMixed)).
Defined.

(** ** Expiries of fewer than ten digits *)

Lemma formatBits_grows (fuel : nat) (u : Z) (a : list byte) :
  (length a <= length (strconv.formatBits fuel u a))%nat.
Proof.
  revert u a. induction fuel as [|fuel IH]; intros u a; cbn; [lia|].
  destruct (u <? 10); cbn; [lia|].
  etrans; [|apply IH]. cbn. lia.
Qed.

Lemma Itoa_nonempty (e : Z) :
  0 <= e → list_byte_of_string (strconv.Itoa e) ≠ [].
Proof.
  intros He. unfold strconv.Itoa, strconv.FormatInt.
  rewrite list_byte_of_string_of_list_byte.
  destruct (Z.ltb_spec e 0); [lia|].
  change (strconv.formatBits 20 e [])
    with (if e <? 10 then [strconv.digit e]
          else strconv.formatBits 19 (e / 10) [strconv.digit (e mod 10)]).
  destruct (e <? 10); [done|].
  pose proof (formatBits_grows 19 (e / 10) [strconv.digit (e mod 10)]) as Hg.
  intros Hnil. rewrite Hnil in Hg. cbn in Hg. lia.
Qed.

Lemma parseDigits_None_digits (s : list byte) (n v : Z) :
  strconv.parseDigits s n = (v, None) → Forall isDigit s.
Proof.
  revert n. induction s as [|c s IH]; intros n Hp; [constructor|].
  cbn [strconv.parseDigits] in Hp.
  unfold strconv.digitVal in Hp. case_bool_decide as Hc; [|done].
  constructor; [exact Hc|].
  destruct (strconv.maxUint64 / 10 + 1 <=? n); [done|].
  destruct (strconv.maxUint64 <? n * 10 + (Z.of_N (to_N c) - 48)); [done|].
  by eapply IH.
Qed.

(** [ParseInt] fails on a short string with a character after the first
    that is not a digit. *)
Lemma ParseInt_non_digit (l : list byte) (i : nat) (c : byte) :
  (length l <= 18)%nat →
  l !! S i = Some c → ¬ isDigit c →
  strconv.ParseInt (string_of_list_byte l) = (0, Some strconv.ErrSyntax).
Proof.
  intros Hlen Hi Hc. unfold strconv.ParseInt.
  rewrite list_byte_of_string_of_list_byte.
  destruct l as [|c0 l]; [done|]. cbn in Hi.
  set (s1 := if bool_decide (c0 = x2b ∨ c0 = x2d) then l else c0 :: l).
  assert (c ∈ s1) as Hin.
  { subst s1. case_bool_decide.
    - by eapply list_elem_of_lookup_2.
    - right. by eapply list_elem_of_lookup_2. }
  assert (length s1 <= 18)%nat as Hs1.
  { subst s1. case_bool_decide; cbn [length] in *; lia. }
  assert (strconv.ParseUint s1 = (0, Some strconv.ErrSyntax)) as ->; [|done].
  unfold strconv.ParseUint.
  destruct s1 as [|c1 s1]; [by apply elem_of_nil in Hin|].
  assert (10 ^ Z.of_nat (length (c1 :: s1)) <= 10 ^ 18) as Hpow.
  { apply Z.pow_le_mono_r; lia. }
  destruct (parseDigits_cases (c1 :: s1) 0) as [H|(v & H & _)]; [lia| |done|].
  { change (2 ^ 63) with 9223372036854775808.
    change (10 ^ 18) with 1000000000000000000 in Hpow. lia. }
  exfalso. apply parseDigits_None_digits in H.
  rewrite Forall_forall in H. by apply Hc, H.
Qed.

Lemma separator_not_digit : ¬ isDigit separator.
Proof. intros [_ H]. vm_compute in H. congruence. Qed.

(** A record whose expiry prints as fewer than ten digits decodes to the
    expiry 0. *)
Lemma ParseCacheItem_short_expiry (now seconds : Z) (value : slice) :
  0 <= now + seconds → now + seconds < 10 ^ 9 →
  ∃ payload,
    ParseCacheItem (Some (data (cacheItem now seconds value)))
    = Done (0, payload).
Proof.
  intros Hlo Hhi. rewrite cacheItem_data.
  destruct (Itoa_digits (now + seconds)) as (ds & Heq & Hds & Hval & Hup & Hlow);
    [done|change (10 ^ 9) with 1000000000 in Hhi;
          change (2 ^ 63) with 9223372036854775808; lia|].
  pose proof (Itoa_nonempty (now + seconds) Hlo) as Hne.
  rewrite Heq in *.
  assert (1 <= length ds <= 9)%nat as Hlen.
  { split; [destruct ds; [done|cbn; lia]|].
    destruct Hlow as [-> | Hlow]; [lia|].
    assert (Z.of_nat (length ds) - 1 < 9); [|lia].
    apply (Z.pow_lt_mono_r_iff 10); lia. }
  set (stored := ds ++ separator :: data value).
  destruct (decide (length stored < 11)%nat) as [Hshort|Hlong].
  { exists None. apply ParseCacheItem_short. unfold len. simpl. lia. }
  rewrite ParseCacheItem_long by lia.
  eexists. f_equal. f_equal.
  destruct (length ds) as [|i] eqn:Hi; [lia|].
  rewrite (ParseInt_non_digit (take 10 stored) i separator); [done| | |].
  - rewrite length_take. lia.
  - rewrite lookup_take_lt by lia. subst stored.
    rewrite lookup_app_r by lia. by rewrite Hi, Nat.sub_diag.
  - apply separator_not_digit.
Qed.

(** X24: a record whose expiry has fewer than ten digits cannot be read
    back.  When [0 <= t0+ttl < 10^9], [SetCached] stores the record and
    returns nil, but a [GetCached] of the key at any time reports
    "Invalid Key" and deletes the key. *)
Theorem SetCached_short_expiry_unreadable (t0 ttl t1 : Z) (d : bolt.DB)
    (bucket : list byte) (m : gmap (list byte) (list byte))
    (key value : string) :
  bolt.buckets d !! bucket = Some m →
  0 < len (slice_of_string key) →
  len (slice_of_string key) <= bolt.MaxKeySize →
  len (cacheItem t0 ttl (slice_of_string value)) <= bolt.MaxValueSize →
  0 <= t0 + ttl → t0 + ttl < 10 ^ 9 →
  ∃ d1 d2,
    SetCached t0 bucket ttl key value d = Done (None, d1)
    ∧ GetCached t1 bucket key d1
      = Done ((""%string, errors.New "Invalid Key"), d2)
    ∧ bolt.buckets d2
      = <[bucket := delete (list_byte_of_string key) m]> (bolt.buckets d).
Proof.
  intros Hb Hk0 Hk1 Hv Hlo Hhi.
  pose proof (SetCachedBytes_run t0 d bucket m ttl key (slice_of_string value)
                Hb Hk0 Hk1 Hv) as Hset.
  set (item := data (cacheItem t0 ttl (slice_of_string value))) in *.
  set (m1 := <[list_byte_of_string key := item]> m) in *.
  set (d1 := bolt.mkDB _ _) in Hset.
  assert (bolt.buckets d1 !! bucket = Some m1) as Hb1
    by apply lookup_insert_eq.
  assert (m1 !! list_byte_of_string key = Some item) as Hk
    by apply lookup_insert_eq.
  destruct (ParseCacheItem_short_expiry t0 ttl (slice_of_string value) Hlo Hhi)
    as [payload Hparse].
  fold item in Hparse.
  assert (item ≠ []) as Hne.
  { subst item. rewrite cacheItem_data. intros Hnil.
    by apply app_eq_nil in Hnil as [_ ?]. }
  pose proof (GetCachedBytes_run t1 d1 bucket m1 key item 0 payload
                Hb1 Hk Hne Hparse) as Hrun.
  cbv zeta in Hrun. cbn [Z.ltb Z.compare andb Z.eqb] in Hrun.
  exists d1. eexists. split; [exact Hset|]. split.
  - unfold GetCached, bind. rewrite Hrun. reflexivity.
  - subst d1 m1. cbn [bolt.buckets].
    by rewrite insert_insert_eq, delete_insert_eq.
Qed.

Lemma SetCached_short_expiry_unreadable_witness :
  ∃ d1 d2,
    SetCached 0 exBucket 3600 "k" "v" (exStore exUsers) = Done (None, d1)
    ∧ GetCached 1 exBucket "k" d1
      = Done ((""%string, errors.New "Invalid Key"), d2)
    ∧ bolt.buckets d2
      = <[exBucket := delete (list_byte_of_string "k") exUsers]>
          (bolt.buckets (exStore exUsers)).
Proof.
  apply (SetCached_short_expiry_unreadable 0 3600 1 (exStore exUsers) exBucket
           exUsers "k" "v");
    [apply exStore_bucket | reflexivity | vm_compute; congruence
    | vm_compute; congruence | lia | lia].
Defined.

(** ** Buckets that were never created *)

(** X25: the point operations do not check that the bucket exists.  On a
    store without the bucket, [Has], [Get], [GetCached], [Set],
    [SetCached], [Delete], [Seek], [ForEach] and [DeleteWithPrefix] panic
    on the nil bucket, and so does [BatchDelete] with at least one key;
    [BatchDelete] with no key returns nil.  [CacheCleanup] tests
    [BucketExists] first: it returns and leaves the store as it was. *)
Theorem missing_bucket_panics (now seconds : Z) (d : bolt.DB)
    (bucket : list byte) (key value : string) (keys : list string) :
  bolt.buckets d !! bucket = None →
  Has bucket key d = Panics
  ∧ Get bucket key d = Panics
  ∧ GetCached now bucket key d = Panics
  ∧ Set_ bucket key value d = Panics
  ∧ SetCached now bucket seconds key value d = Panics
  ∧ Delete bucket key d = Panics
  ∧ Seek bucket key recorder [] d = Panics
  ∧ ForEach bucket recordAll [] d = Panics
  ∧ DeleteWithPrefix bucket (slice_of_string key) d = Panics
  ∧ BatchDelete bucket (key :: keys) d = Panics
  ∧ (∃ d', BatchDelete bucket [] d = Done (None, d')
           ∧ bolt.buckets d' = bolt.buckets d)
  ∧ (∃ d', CacheCleanup now [bucket] d = Done ((), d')
           ∧ bolt.buckets d' = bolt.buckets d).
Proof.
  intros Hb.
  repeat split.
  - unfold Has. by run_in Hb.
  - unfold Get, GetBytes. by run_in Hb.
  - unfold GetCached, GetCachedBytes. by run_in Hb.
  - unfold Set_, SetBytes. by run_in Hb.
  - unfold SetCached, SetCachedBytes. by run_in Hb.
  - unfold Delete. by run_in Hb.
  - unfold Seek. by run_in Hb.
  - unfold ForEach. by run_in Hb.
  - unfold DeleteWithPrefix, ForEach. by run_in Hb.
  - unfold BatchDelete. cbn [batchDeleteLoop]. by run_in Hb.
  - unfold BatchDelete. cbn [batchDeleteLoop]. run_in Hb.
    eexists. split; reflexivity.
  - rewrite CacheCleanup_run. eexists. split; [reflexivity|].
    cbn. unfold sweepBucket. by rewrite Hb.
Qed.

Lemma missing_bucket_panics_witness :
  Has (list_byte_of_string "history") "k" (exStore exUsers) = Panics
  ∧ Get (list_byte_of_string "history") "k" (exStore exUsers) = Panics
  ∧ GetCached 1700000000 (list_byte_of_string "history") "k" (exStore exUsers)
    = Panics
  ∧ Set_ (list_byte_of_string "history") "k" "v" (exStore exUsers) = Panics
  ∧ SetCached 1700000000 (list_byte_of_string "history") 60 "k" "v"
      (exStore exUsers) = Panics
  ∧ Delete (list_byte_of_string "history") "k" (exStore exUsers) = Panics
  ∧ Seek (list_byte_of_string "history") "k" recorder [] (exStore exUsers)
    = Panics
  ∧ ForEach (list_byte_of_string "history") recordAll [] (exStore exUsers)
    = Panics
  ∧ DeleteWithPrefix (list_byte_of_string "history") (slice_of_string "k")
      (exStore exUsers) = Panics
  ∧ BatchDelete (list_byte_of_string "history") ["k"%string] (exStore exUsers)
    = Panics
  ∧ (∃ d', BatchDelete (list_byte_of_string "history") [] (exStore exUsers)
           = Done (None, d')
           ∧ bolt.buckets d' = bolt.buckets (exStore exUsers))
  ∧ (∃ d', CacheCleanup 1700000000 [list_byte_of_string "history"]
             (exStore exUsers) = Done ((), d')
           ∧ bolt.buckets d' = bolt.buckets (exStore exUsers)).
Proof.
  apply (missing_bucket_panics 1700000000 60 (exStore exUsers)
           (list_byte_of_string "history") "k" "v" []).
  apply exStore_other. distinct_keys.
Defined.
